(** * The matching relay of server.js: registry, match slot and signal relay

    A shallow embedding of the WebSocket logic of [src/server.js]
    (the part between "WEBSOCKET LOGIC" and "HELPERS"), with the
    properties of the matching registry proved or refuted on it.

    Modelling decisions.
    - A socket object [ws] is used by the source only through its identity
      (it is the key of the [clients] Map and the value of [waitingUser] and
      of [partner]) and through [ws.readyState].  A socket is a natural
      number here; [readyState] belongs to the ws library and is only read by
      the handlers, so every handler takes it as [rs : ws -> readyState].
    - [clients] is a JavaScript Map: a [gmap ws client].  The source mutates
      the record objects stored in the Map through aliases ([client],
      [partnerData]); here every mutation writes the record back under the
      key it was read from, in the order of the source's assignments.
    - The handlers work on JavaScript values ([json]).  [on_message] takes
      what [JSON.parse] made of the frame: [Throw] for a SyntaxError,
      [Normal v] for the parsed value.
    - Effects are a list, in program order: [Send ws payload] for a call of
      [ws.send(JSON.stringify(payload))], [Close ws code reason] for
      [ws.close(code, reason)].  Console logging is left out.
    - The text on the wire is a JSON document ([doc]): the abstract syntax of
      the text, so that white space, escapes and the spelling of a numeral
      play no role.  [JSON_parse] and [JSON_stringify] relate documents and
      values: numbers become IEEE doubles (rounded to 53 significant bits,
      infinite beyond the double range, written back with the shortest
      digits that read as the same double, [null] when not finite), and the
      members of an object become properties (a repeated key overwrites,
      array-index keys are enumerated first).  [message_listener] is the
      listener on a frame as it arrives, [wire] the documents that go out.
    - Numerals are restricted to integers (no fraction part).  A string of
      a document is the JavaScript string its text denotes; the decoding
      of the bytes of a frame, deep nesting and other resource limits are
      not modelled. *)

From Stdlib Require Import Ascii String ZArith List.
From stdpp Require Import base option gmap fin_maps strings list.

Local Open Scope string_scope.
Local Open Scope list_scope.

(** ** JavaScript values that reach the handlers *)

(** A JavaScript number with an integer value: a finite double, given by
    its value, or plus or minus [Infinity]. *)
Inductive number :=
  | Finite (z : Z)
  | Infinite (negative : bool).

#[warnings="-register-all"]
Inductive json :=
  | JNull
  | JBool (b : bool)
  | JNum (n : number)
  | JStr (s : string)
  | JArr (l : list json)
  | JObj (fields : list (string * json)).

(** The outcome of an expression that may throw. *)
Inductive completion (A : Type) :=
  | Normal (a : A)
  | Throw.
Arguments Normal {A} a.
Arguments Throw {A}.

(** [o[k]] for an object given by its properties: the first binding of
    [k]; the objects [JSON.parse] returns bind a key at most once. *)
Fixpoint assoc (k : string) (fields : list (string * json)) : option json :=
  match fields with
  | [] => None
  | (k', v) :: rest => if String.eqb k k' then Some v else assoc k rest
  end.

(** [data.k].  Reading a property of [null] throws a TypeError; on a
    boolean, number, string or array the properties "type" and "name" are
    [undefined] ([None]). *)
Definition get_prop (data : json) (k : string) : completion (option json) :=
  match data with
  | JNull => Throw
  | JObj fields => Normal (assoc k fields)
  | _ => Normal None
  end.

(** JavaScript truthiness, as used by [name || "Stranger"]. *)
Definition truthy (v : json) : bool :=
  match v with
  | JNull => false
  | JBool b => b
  | JNum (Finite n) => negb (Z.eqb n 0)
  | JNum (Infinite _) => true
  | JStr s => negb (String.eqb s "")
  | JArr _ | JObj _ => true
  end.

(** [v || d] where [v] may be [undefined]. *)
Definition or_default (v : option json) (d : json) : json :=
  match v with
  | Some x => if truthy x then x else d
  | None => d
  end.

(** [v === s] for a string literal [s]. *)
Definition is_string (v : option json) (s : string) : bool :=
  match v with
  | Some (JStr t) => String.eqb t s
  | _ => false
  end.

(** ** Sockets, session states, registry *)

Definition ws := nat.

Module WebSocket.

Inductive readyState := CONNECTING | OPEN | CLOSING | CLOSED.

(** [readyState === WebSocket.OPEN]. *)
Definition is_open (r : readyState) : bool :=
  match r with OPEN => true | _ => false end.

End WebSocket.

Module STATES.

Inductive t := IDLE | SEARCHING | CONNECTING | CONNECTED.

(** [a === b] on the state strings. *)
Definition eqb (a b : t) : bool :=
  match a, b with
  | IDLE, IDLE | SEARCHING, SEARCHING
  | CONNECTING, CONNECTING | CONNECTED, CONNECTED => true
  | _, _ => false
  end.

End STATES.

Record client := Client {
  id : string;
  name : json;
  state : STATES.t;
  partner : option ws
}.

Definition set_name (c : client) (n : json) : client :=
  Client (id c) n (state c) (partner c).
Definition set_state (c : client) (st : STATES.t) : client :=
  Client (id c) (name c) st (partner c).
Definition set_partner (c : client) (p : option ws) : client :=
  Client (id c) (name c) (state c) p.

(** The two module-level variables [clients] and [waitingUser]. *)
Record registry := Registry {
  clients : gmap ws client;
  waitingUser : option ws
}.

Definition init : registry := Registry ∅ None.

Inductive effect :=
  | Send (to : ws) (payload : json)
  | Close (sock : ws) (code : Z) (reason : string).

Definition ALLOWED_ORIGINS : list string :=
  [ "https://anonchatsgs.web.app"; "https://anonchatsgs.firebaseapp.com" ].

(** [ALLOWED_ORIGINS.includes(origin)]; a missing header is [undefined]. *)
Definition includes (l : list string) (origin : option string) : bool :=
  match origin with
  | Some o => existsb (String.eqb o) l
  | None => false
  end.

(** ** Helpers and handlers *)

Definition sendJSON (rs : ws -> WebSocket.readyState) (w : ws) (payload : json)
  : list effect :=
  if WebSocket.is_open (rs w) then [Send w payload] else [].

Definition matched (initiator : bool) (partnerName : json) : json :=
  JObj [ ("type", JStr "matched");
         ("initiator", JBool initiator);
         ("partnerName", partnerName) ].

Definition partner_left : json := JObj [ ("type", JStr "partner-left") ].

Definition invalid_payload : json :=
  JObj [ ("type", JStr "error"); ("message", JStr "Invalid payload") ].

(** [handleJoin(ws, client, name)]; [client] is the record [clients.get(ws)]
    the caller looked up. *)
Definition handleJoin (rs : ws -> WebSocket.readyState) (s : registry)
    (w : ws) (c : client) (nm : option json) : registry * list effect :=
  if STATES.eqb (state c) STATES.SEARCHING then (s, [])
  else
    let c1 := set_state (set_name c (or_default nm (JStr "Stranger")))
                        STATES.SEARCHING in
    let cl1 := <[w := c1]> (clients s) in
    match waitingUser s with
    | Some p =>
        if decide (p = w) then (Registry cl1 (Some w), [])
        else
          match cl1 !! p with
          | Some partnerData =>
              if STATES.eqb (state partnerData) STATES.SEARCHING then
                let c2 := set_partner (set_state c1 STATES.CONNECTING) (Some p) in
                let pd2 := set_partner (set_state partnerData STATES.CONNECTING)
                                       (Some w) in
                (Registry (<[p := pd2]> (<[w := c2]> cl1)) None,
                 sendJSON rs w (matched true (name partnerData))
                 ++ sendJSON rs p (matched false (name c2)))
              else (Registry cl1 (Some w), [])
          | None => (Registry cl1 (Some w), [])
          end
    | None => (Registry cl1 (Some w), [])
    end.

(** [handleSignal(ws, client, data)]. *)
Definition handleSignal (rs : ws -> WebSocket.readyState) (s : registry)
    (w : ws) (c : client) (data : json) : registry * list effect :=
  match partner c with
  | Some p =>
      if WebSocket.is_open (rs p) then (s, sendJSON rs p data) else (s, [])
  | None => (s, [])
  end.

(** [handleDisconnect(ws)]. *)
Definition handleDisconnect (rs : ws -> WebSocket.readyState) (s : registry)
    (w : ws) : registry * list effect :=
  match clients s !! w with
  | None => (s, [])
  | Some c =>
      let wu := if decide (waitingUser s = Some w) then None else waitingUser s in
      match partner c with
      | Some p =>
          match clients s !! p with
          | Some partnerData =>
              (Registry (delete w (<[p := set_partner partnerData None]> (clients s)))
                        wu,
               sendJSON rs p partner_left)
          | None => (Registry (delete w (clients s)) wu, [])
          end
      | None => (Registry (delete w (clients s)) wu, [])
      end
  end.

(** The body of [wss.on("connection", ...)]; [uuid] is the value returned
    by [randomUUID()]. *)
Definition on_connection (s : registry) (w : ws) (origin : option string)
    (uuid : string) : registry * list effect :=
  if negb (includes ALLOWED_ORIGINS origin) then
    (s, [Close w 1008 "Origin not allowed"])
  else
    (Registry (<[w := Client uuid (JStr "Anonymous") STATES.IDLE None]> (clients s))
              (waitingUser s), []).

Definition bind {A B : Type} (m : completion A) (k : A -> completion B)
  : completion B :=
  match m with
  | Normal a => k a
  | Throw => Throw
  end.

Notation "x <- m ;; k" := (bind m (fun x => k))
  (at level 100, m at next level, right associativity).

(** The [try] block of [ws.on("message", ...)].  Whatever throws in it
    ([JSON.parse], or [data.type] on [null]) throws before the registry is
    touched. *)
Definition message_body (rs : ws -> WebSocket.readyState) (s : registry)
    (w : ws) (message : completion json) : completion (registry * list effect) :=
  data <- message ;;
  match clients s !! w with
  | None => Normal (s, [])
  | Some c =>
      ty <- get_prop data "type" ;;
      if is_string ty "join" then
        nm <- get_prop data "name" ;;
        Normal (handleJoin rs s w c nm)
      else if is_string ty "signal" then
        Normal (handleSignal rs s w c data)
      else if is_string ty "connected" then
        Normal (Registry (<[w := set_state c STATES.CONNECTED]> (clients s))
                         (waitingUser s), [])
      else Normal (s, [])
  end.

(** The message handler: the [catch] clause calls [ws.send] directly, not
    [sendJSON]. *)
Definition on_message (rs : ws -> WebSocket.readyState) (s : registry)
    (w : ws) (message : completion json) : registry * list effect :=
  match message_body rs s w message with
  | Normal r => r
  | Throw => (s, [Send w invalid_payload])
  end.

(** ** The event loop *)

Inductive event :=
  | EvConnection (w : ws) (origin : option string) (uuid : string)
  | EvMessage (w : ws) (message : completion json)
  | EvClose (w : ws).

(** The source attaches the message and close listeners only to a socket
    that passed the origin check; [step] lets any socket deliver a frame or
    close, which is more than the code can see. *)
Definition step (rs : ws -> WebSocket.readyState) (s : registry) (ev : event)
  : registry * list effect :=
  match ev with
  | EvConnection w origin uuid => on_connection s w origin uuid
  | EvMessage w message => on_message rs s w message
  | EvClose w => handleDisconnect rs s w
  end.

(** One event after the other, each with the transport states it finds;
    the effects are collected in order. *)
Fixpoint run (s : registry) (tr : list ((ws -> WebSocket.readyState) * event))
  : registry * list effect :=
  match tr with
  | [] => (s, [])
  | (rs, ev) :: rest =>
      let '(s1, out1) := step rs s ev in
      let '(s2, out2) := run s1 rest in
      (s2, out1 ++ out2)
  end.

Inductive reachable : registry -> Prop :=
  | reachable_init : reachable init
  | reachable_step s rs ev : reachable s -> reachable (step rs s ev).1.

(** ** The JSON text boundary *)

(** A JSON document: the abstract syntax of a JSON text.  A numeral is
    given by its integer value, an object by its members in the order of
    the text, a key possibly more than once. *)
#[warnings="-register-all"]
Inductive doc :=
  | DNull
  | DBool (b : bool)
  | DNum (n : Z)
  | DStr (s : string)
  | DArr (l : list doc)
  | DObj (members : list (string * doc)).

(** A frame as it arrives: some text that is not JSON, or a document. *)
Inductive frame :=
  | NotJSON
  | Document (d : doc).

(** The integer nearest to [n] that has at most 53 significant bits, ties
    to the even one: the value of the double a numeral [n] is read as, as
    long as it is in the double range. *)
Definition round53 (n : Z) : Z :=
  let a := Z.abs n in
  let k := (Z.log2 a - 52)%Z in
  if (k <=? 0)%Z then n
  else
    let q := (a / 2 ^ k)%Z in
    let r := (a mod 2 ^ k)%Z in
    let half := (2 ^ (k - 1))%Z in
    let q' := if (half <? r)%Z || ((r =? half)%Z && Z.odd q)
              then (q + 1)%Z else q in
    (Z.sgn n * (q' * 2 ^ k))%Z.

(** The number a numeral denotes: its double, or an infinity when the
    rounded value is 2^1024 or more. *)
Definition to_number (n : Z) : number :=
  let r := round53 n in
  if (2 ^ 1024 <=? Z.abs r)%Z then Infinite (n <? 0)%Z else Finite r.

(** Number::toString for a positive integer-valued double [x]: among the
    decimals that read back as [x], the one with the fewest significant
    digits, that is, the multiple of the highest power of ten [10^j]; of
    two such, the one nearer to [x], and the one with the even last digit
    when they are equally near. *)
Fixpoint shortest_from (j : nat) (x : Z) : Z :=
  let p := (10 ^ Z.of_nat j)%Z in
  let lo := (x / p * p)%Z in
  let hi := (lo + p)%Z in
  let found :=
    match (round53 lo =? x)%Z, (round53 hi =? x)%Z with
    | true, true =>
        if (x - lo <? hi - x)%Z then Some lo
        else if (hi - x <? x - lo)%Z then Some hi
        else if Z.even (lo / p) then Some lo else Some hi
    | true, false => Some lo
    | false, true => Some hi
    | false, false => None
    end in
  match found with
  | Some v => v
  | None => match j with O => x | S j' => shortest_from j' x end
  end.

(** The integer whose digits [JSON.stringify] writes for a finite [z]. *)
Definition shortest (z : Z) : Z :=
  match z with
  | Z0 => 0%Z
  | Zpos _ => shortest_from (S (Z.to_nat (Z.log2 z))) z
  | Zneg _ => (- shortest_from (S (Z.to_nat (Z.log2 (- z)))) (- z))%Z
  end.

Definition digit_value (c : ascii) : option Z :=
  let n := Z.of_nat (nat_of_ascii c) in
  if (48 <=? n)%Z && (n <=? 57)%Z then Some (n - 48)%Z else None.

Fixpoint decimal_value (s : string) (acc : Z) : option Z :=
  match s with
  | EmptyString => Some acc
  | String c rest =>
      match digit_value c with
      | Some v => decimal_value rest (10 * acc + v)%Z
      | None => None
      end
  end.

(** A property key that is an array index: the canonical decimal spelling
    of an integer from 0 to 2^32 - 2. *)
Definition array_index (k : string) : option Z :=
  match k with
  | EmptyString => None
  | String c rest =>
      if Ascii.eqb c "0" && negb (String.eqb rest "") then None
      else
        match decimal_value k 0 with
        | Some i => if (i <=? 2 ^ 32 - 2)%Z then Some i else None
        | None => None
        end
  end.

Definition has_key (k : string) (fields : list (string * json)) : bool :=
  existsb (fun f => String.eqb k (fst f)) fields.

Fixpoint obj_replace (k : string) (v : json) (fields : list (string * json))
  : list (string * json) :=
  match fields with
  | [] => []
  | (k', v') :: rest =>
      if String.eqb k k' then (k', v) :: rest
      else (k', v') :: obj_replace k v rest
  end.

Fixpoint obj_insert_index (i : Z) (k : string) (v : json)
    (fields : list (string * json)) : list (string * json) :=
  match fields with
  | [] => [(k, v)]
  | (k', v') :: rest =>
      match array_index k' with
      | Some i' =>
          if (i' <? i)%Z then (k', v') :: obj_insert_index i k v rest
          else (k, v) :: fields
      | None => (k, v) :: fields
      end
  end.

(** CreateDataProperty on an object given by its properties in the order
    they are enumerated: an existing key keeps its place and takes the new
    value; a new array index goes among the indices in ascending order,
    which come first; any other new key goes last. *)
Definition obj_define (k : string) (v : json) (fields : list (string * json))
  : list (string * json) :=
  if has_key k fields then obj_replace k v fields
  else
    match array_index k with
    | Some i => obj_insert_index i k v fields
    | None => fields ++ [(k, v)]
    end.

(** The value [JSON.parse] returns for a document. *)
Fixpoint parse_doc (d : doc) : json :=
  match d with
  | DNull => JNull
  | DBool b => JBool b
  | DNum n => JNum (to_number n)
  | DStr s => JStr s
  | DArr l => JArr (map parse_doc l)
  | DObj members =>
      JObj (fold_left (fun fields m => obj_define (fst m) (snd m) fields)
                      (map (fun m => (fst m, parse_doc (snd m))) members) [])
  end.

(** [JSON.parse(message)]. *)
Definition JSON_parse (f : frame) : completion json :=
  match f with
  | NotJSON => Throw
  | Document d => Normal (parse_doc d)
  end.

(** [JSON.stringify(payload)], as the document its text spells. *)
Fixpoint JSON_stringify (v : json) : doc :=
  match v with
  | JNull => DNull
  | JBool b => DBool b
  | JNum (Finite z) => DNum (shortest z)
  | JNum (Infinite _) => DNull
  | JStr s => DStr s
  | JArr l => DArr (map JSON_stringify l)
  | JObj fields => DObj (map (fun f => (fst f, JSON_stringify (snd f))) fields)
  end.

(** The listener of [ws.on("message", ...)] on a frame as it arrives. *)
Definition message_listener (rs : ws -> WebSocket.readyState) (s : registry)
    (w : ws) (f : frame) : registry * list effect :=
  on_message rs s w (JSON_parse f).

(** The documents that go out on the wire, with their sockets. *)
Definition wire (out : list effect) : list (ws * doc) :=
  flat_map (fun e => match e with
                     | Send w payload => [(w, JSON_stringify payload)]
                     | Close _ _ _ => []
                     end) out.

Fixpoint distinct (ks : list string) : bool :=
  match ks with
  | [] => true
  | k :: rest => negb (existsb (String.eqb k) rest) && distinct rest
  end.

(** A document that the round trip through [JSON.parse] and
    [JSON.stringify] leaves alone: its integers are below 2^53 in
    magnitude, and the keys of each object are pairwise different and no
    array indices. *)
Fixpoint plain (d : doc) : bool :=
  match d with
  | DNum n => (Z.abs n <? 2 ^ 53)%Z
  | DArr l => forallb plain l
  | DObj members =>
      distinct (map fst members)
      && forallb (fun m => match array_index (fst m) with
                           | None => true
                           | Some _ => false
                           end) members
      && forallb (fun m => plain (snd m)) members
  | _ => true
  end.

(** ** Properties of a registry *)

(** No registered connection has itself as partner. *)
Definition no_self_pair (s : registry) : Prop :=
  ∀ w c, clients s !! w = Some c → partner c ≠ Some w.

(** Every registered connection in state Searching is the one in the
    match slot. *)
Definition searching_in_slot (s : registry) : Prop :=
  ∀ w c, clients s !! w = Some c → state c = STATES.SEARCHING →
         waitingUser s = Some w.

(** Partner links between registered connections point both ways. *)
Definition reciprocal (s : registry) : Prop :=
  ∀ a b ca cb, clients s !! a = Some ca → clients s !! b = Some cb →
               (partner ca = Some b ↔ partner cb = Some a).

(** The occupant of the slot is stale: not registered, or not Searching. *)
Definition stale (s : registry) (p : ws) : Prop :=
  ∀ pd, clients s !! p = Some pd → state pd ≠ STATES.SEARCHING.

(** Every [Send] of [out] goes to a socket whose transport is open. *)
Definition sends_open (rs : ws -> WebSocket.readyState) (out : list effect)
  : Prop :=
  ∀ w payload, In (Send w payload) out → rs w = WebSocket.OPEN.

(** Every partner reference names a registered connection that names the
    referring one back. *)
Definition linked (s : registry) : Prop :=
  ∀ a ca b, clients s !! a = Some ca → partner ca = Some b →
            ∃ cb, clients s !! b = Some cb ∧ partner cb = Some a.

(** A Searching connection has no partner. *)
Definition searching_unpaired (s : registry) : Prop :=
  ∀ w c, clients s !! w = Some c → state c = STATES.SEARCHING →
         partner c = None.

(** The frame parses to a value whose type tag is "join". *)
Definition is_join (m : completion json) : Prop :=
  ∃ data ty, m = Normal data ∧ get_prop data "type" = Normal ty ∧
             is_string ty "join" = true.

(** An event of a quiet run: a socket connects only once, and a connection
    sends [join] only while it has no partner. *)
Definition calm (s : registry) (ev : event) : Prop :=
  match ev with
  | EvConnection w _ _ => clients s !! w = None
  | EvMessage w m =>
      is_join m → ∀ c, clients s !! w = Some c → partner c = None
  | EvClose _ => True
  end.

Inductive calm_reachable : registry -> Prop :=
  | calm_init : calm_reachable init
  | calm_step s rs ev :
      calm_reachable s → calm s ev → calm_reachable (step rs s ev).1.

(** No [ws.close] among the effects. *)
Definition no_close (out : list effect) : Prop :=
  ∀ x code reason, ¬ In (Close x code reason) out.

(** ** Concrete data for the examples *)

Definition all_open : ws -> WebSocket.readyState := fun _ => WebSocket.OPEN.

Definition closed_at (x : ws) : ws -> WebSocket.readyState :=
  fun w => if Nat.eqb w x then WebSocket.CLOSED else WebSocket.OPEN.

Definition origin_ok : option string := Some "https://anonchatsgs.web.app".

Definition join_frame (n : string) : completion json :=
  Normal (JObj [ ("type", JStr "join"); ("name", JStr n) ]).

Definition connected_frame : completion json :=
  Normal (JObj [ ("type", JStr "connected") ]).

Definition offer_frame : json :=
  JObj [ ("type", JStr "signal");
         ("signal", JObj [ ("type", JStr "offer"); ("sdp", JStr "v=0") ]) ].

(** A signal frame with an ICE candidate whose line index is [n]. *)
Definition candidate_doc (n : Z) : doc :=
  DObj [ ("type", DStr "signal");
         ("signal", DObj [ ("type", DStr "candidate");
                           ("candidate", DStr "candidate:1 1 udp 1 10.0.0.1 9 typ host");
                           ("sdpMLineIndex", DNum n) ]) ].

(** A join frame whose name is the numeral [n]. *)
Definition join_doc (n : Z) : doc :=
  DObj [ ("type", DStr "join"); ("name", DNum n) ].

(** Connection 1 joins under a numeral beyond the double range, as in
    [{"type":"join","name":1e400}]; connection 2 has not joined. *)
Definition huge_name_trace : list ((ws -> WebSocket.readyState) * event) :=
  [ (all_open, EvConnection 1 origin_ok "u1");
    (all_open, EvConnection 2 origin_ok "u2");
    (all_open, EvMessage 1 (JSON_parse (Document (join_doc (10 ^ 400))))) ].

Definition ping_frame : completion json :=
  Normal (JObj [ ("type", JStr "ping") ]).

(** Connections 1 and 2 pair, 1 asks for a new match and is paired with 3. *)
Definition rejoin_trace : list ((ws -> WebSocket.readyState) * event) :=
  [ (all_open, EvConnection 1 origin_ok "u1");
    (all_open, EvConnection 2 origin_ok "u2");
    (all_open, EvConnection 3 origin_ok "u3");
    (all_open, EvMessage 1 (join_frame "Ann"));
    (all_open, EvMessage 2 (join_frame "Bob"));
    (all_open, EvMessage 1 (join_frame "Ann"));
    (all_open, EvMessage 3 (join_frame "Cy")) ].

(** Connection 1 waits; connection 2 is registered and has not joined. *)
Definition waiting_trace : list ((ws -> WebSocket.readyState) * event) :=
  [ (all_open, EvConnection 1 origin_ok "u1");
    (all_open, EvConnection 2 origin_ok "u2");
    (all_open, EvMessage 1 (join_frame "Ann")) ].

(** Connections 1 and 2 are paired (2 arrived second). *)
Definition paired_trace : list ((ws -> WebSocket.readyState) * event) :=
  waiting_trace ++ [ (all_open, EvMessage 2 (join_frame "Bob")) ].

(** Connections 1 and 2 are paired, then 2 asks for a new match and waits. *)
Definition partner_waits_trace : list ((ws -> WebSocket.readyState) * event) :=
  paired_trace ++ [ (all_open, EvMessage 2 (join_frame "Bob")) ].

(** Connection 1 waits, then reports "connected": a stale slot occupant. *)
Definition stale_trace : list ((ws -> WebSocket.readyState) * event) :=
  waiting_trace ++ [ (all_open, EvMessage 1 connected_frame) ].

Definition ann : client := Client "u1" (JStr "Ann") STATES.SEARCHING None.
Definition bob_idle : client := Client "u2" (JStr "Anonymous") STATES.IDLE None.
Definition ann_paired : client :=
  Client "u1" (JStr "Ann") STATES.CONNECTING (Some 2).
Definition bob_paired : client :=
  Client "u2" (JStr "Bob") STATES.CONNECTING (Some 1).

(** ** The HTTP side of the origin allow-list *)

(** What the [origin] function of the cors options passes to its
    callback: [callback(null, true)] or [callback(new Error(message))]. *)
Inductive cors_decision :=
  | CorsAllow
  | CorsError (message : string).

(** [!origin] for a header that is a string or [undefined]. *)
Definition origin_missing (origin : option string) : bool :=
  match origin with
  | None => true
  | Some o => String.eqb o ""
  end.

(** The [origin(origin, callback)] option given to [cors]. *)
Definition cors_origin (origin : option string) : cors_decision :=
  if origin_missing origin then CorsAllow
  else if includes ALLOWED_ORIGINS origin then CorsAllow
  else CorsError "Not allowed by CORS".

(** ** Further properties of a registry *)

(** The slot, when occupied, names a registered connection. *)
Definition slot_registered (s : registry) : Prop :=
  ∀ w, waitingUser s = Some w → is_Some (clients s !! w).

(** Every recorded display name is a truthy value. *)
Definition names_truthy (s : registry) : Prop :=
  ∀ w c, clients s !! w = Some c → truthy (name c) = true.

(** Every event of the trace is calm in the registry it finds. *)
Fixpoint calm_trace (s : registry)
    (tr : list ((ws -> WebSocket.readyState) * event)) : Prop :=
  match tr with
  | [] => True
  | (rs, ev) :: rest => calm s ev ∧ calm_trace (step rs s ev).1 rest
  end.

(** ** Basic facts *)

Ltac lookup_cases H :=
  simpl in H;
  repeat (first
    [ rewrite lookup_delete in H
    | rewrite lookup_insert in H ];
    case_decide; simplify_eq; simpl in * ).

Lemma STATES_eqb_eq a b : STATES.eqb a b = true ↔ a = b.
Proof. destruct a, b; simpl; split; congruence. Qed.

Lemma STATES_eqb_neq a b : STATES.eqb a b = false ↔ a ≠ b.
Proof. destruct a, b; simpl; split; congruence. Qed.

Lemma is_open_true r : WebSocket.is_open r = true ↔ r = WebSocket.OPEN.
Proof. destruct r; simpl; split; congruence. Qed.

Lemma is_string_eq v t : is_string v t = true → v = Some (JStr t).
Proof.
  destruct v as [[| | |u| |]|]; simpl; try discriminate.
  intros H. apply String.eqb_eq in H. by subst.
Qed.

Lemma sendJSON_sends_open rs w payload : sends_open rs (sendJSON rs w payload).
Proof.
  intros x q. unfold sendJSON.
  destruct (WebSocket.is_open (rs w)) eqn:E; simpl; [|tauto].
  intros [H|[]]. inversion H; subst. by apply is_open_true.
Qed.

Lemma sendJSON_in rs w payload x q :
  In (Send x q) (sendJSON rs w payload) →
  x = w ∧ q = payload ∧ rs w = WebSocket.OPEN.
Proof.
  unfold sendJSON. destruct (WebSocket.is_open (rs w)) eqn:E; simpl; [|tauto].
  intros [H|[]]. inversion H; subst. by rewrite <- is_open_true.
Qed.

Lemma sends_open_nil rs : sends_open rs [].
Proof. intros x q []. Qed.

Lemma sends_open_app rs l1 l2 :
  sends_open rs l1 → sends_open rs l2 → sends_open rs (l1 ++ l2).
Proof.
  intros H1 H2 x q Hin. apply in_app_or in Hin as [Hin|Hin]; eauto.
Qed.

Lemma no_close_nil : no_close [].
Proof. intros x code reason []. Qed.

Lemma no_close_app l1 l2 : no_close l1 → no_close l2 → no_close (l1 ++ l2).
Proof.
  intros H1 H2 x code reason Hin.
  apply in_app_or in Hin as [Hin|Hin]; [by eapply H1 | by eapply H2].
Qed.

Lemma sendJSON_no_close rs w payload : no_close (sendJSON rs w payload).
Proof.
  intros x code reason. unfold sendJSON.
  destruct (WebSocket.is_open (rs w)); simpl; [|tauto].
  by intros [?|[]].
Qed.

Lemma send_no_close w payload : no_close [Send w payload].
Proof. intros x code reason [?|[]]. discriminate. Qed.

Create HintDb relay.
#[local] Hint Resolve no_close_nil no_close_app sendJSON_no_close
  send_no_close sends_open_nil sends_open_app sendJSON_sends_open : relay.

Lemma handleJoin_no_close rs s w c nm : no_close (handleJoin rs s w c nm).2.
Proof. unfold handleJoin. repeat case_match; simpl; auto with relay. Qed.

Lemma handleSignal_no_close rs s w c data :
  no_close (handleSignal rs s w c data).2.
Proof. unfold handleSignal. repeat case_match; simpl; auto with relay. Qed.

Lemma handleDisconnect_no_close rs s w : no_close (handleDisconnect rs s w).2.
Proof. unfold handleDisconnect. repeat case_match; simpl; auto with relay. Qed.

Lemma run_app s tr1 tr2 :
  run s (tr1 ++ tr2) =
  ((run (run s tr1).1 tr2).1, (run s tr1).2 ++ (run (run s tr1).1 tr2).2).
Proof.
  revert s. induction tr1 as [|[rs ev] tr1 IH]; intros s; simpl.
  - by destruct (run s tr2).
  - destruct (step rs s ev) as [s1 out1]. rewrite IH.
    destruct (run s1 tr1) as [s2 out2]; simpl.
    by rewrite app_assoc.
Qed.

Lemma run_reachable s tr : reachable s → reachable (run s tr).1.
Proof.
  revert s. induction tr as [|[rs ev] tr IH]; intros s Hs; simpl; [done|].
  specialize (IH _ (reachable_step s rs ev Hs)).
  destruct (step rs s ev) as [s1 out1]; simpl in IH.
  by destruct (run s1 tr).
Qed.

(** ** The join guard, the relay and protocol faults *)

(** C7. A join from a connection that is already Searching changes
    nothing: [handleJoin] returns the registry as it is and sends nothing,
    and so does the message handler on any frame whose type is "join". *)
Theorem join_idempotent_when_searching rs s w c :
  clients s !! w = Some c →
  state c = STATES.SEARCHING →
  (∀ nm, handleJoin rs s w c nm = (s, [])) ∧
  (∀ data ty, get_prop data "type" = Normal ty → is_string ty "join" = true →
              on_message rs s w (Normal data) = (s, [])).
Proof.
  intros Hw Hst. split.
  - intros nm. unfold handleJoin. by rewrite Hst.
  - intros data ty Hty Hjoin. unfold on_message, message_body; simpl.
    rewrite Hw, Hty; simpl. rewrite Hjoin.
    destruct data; simpl in *; try discriminate;
      unfold handleJoin; by rewrite Hst.
Qed.

Lemma join_idempotent_when_searching_witness :
  clients (run init waiting_trace).1 !! 1 = Some ann ∧
  state ann = STATES.SEARCHING ∧
  handleJoin all_open (run init waiting_trace).1 1 ann (Some (JStr "Ann2"))
  = ((run init waiting_trace).1, []) ∧
  on_message all_open (run init waiting_trace).1 1 (join_frame "Ann2")
  = ((run init waiting_trace).1, []).
Proof.
  destruct (join_idempotent_when_searching all_open (run init waiting_trace).1
              1 ann) as [H1 H2]; [reflexivity | reflexivity |].
  split; [reflexivity|]. split; [reflexivity|]. split.
  - apply H1.
  - by apply (H2 _ (Some (JStr "join"))).
Defined.

(** What the message handler does with a parsed value whose type tag is
    "signal": the value goes to [sendJSON] for the partner when the
    partner's transport is open, and nowhere otherwise. *)
Lemma signal_dispatch rs s w c data ty :
  clients s !! w = Some c →
  get_prop data "type" = Normal ty →
  is_string ty "signal" = true →
  (on_message rs s w (Normal data)).1 = s ∧
  (∀ p, partner c = Some p → rs p = WebSocket.OPEN →
        (on_message rs s w (Normal data)).2 = [Send p data]) ∧
  (∀ p, partner c = Some p → rs p ≠ WebSocket.OPEN →
        (on_message rs s w (Normal data)).2 = []) ∧
  (partner c = None → (on_message rs s w (Normal data)).2 = []).
Proof.
  intros Hw Hty Hsig.
  assert (Hj : is_string ty "join" = false).
  { apply is_string_eq in Hsig. by subst. }
  assert (Hm : on_message rs s w (Normal data) = handleSignal rs s w c data).
  { unfold on_message, message_body; simpl.
    rewrite Hw, Hty; simpl. by rewrite Hj, Hsig. }
  rewrite Hm. unfold handleSignal, sendJSON.
  repeat split.
  - destruct (partner c) as [p|]; [|done].
    by destruct (WebSocket.is_open (rs p)).
  - intros p -> Hopen. by rewrite Hopen.
  - intros p -> Hclosed.
    destruct (WebSocket.is_open (rs p)) eqn:E; [|done].
    by apply is_open_true in E.
  - by intros ->.
Qed.

(** C6 does not hold as stated: a well-formed frame of an unknown type
    (here [{"type":"ping"}]) gets no reply at all. *)
Lemma unknown_type_gets_no_error_reply :
  on_message all_open (run init waiting_trace).1 1 ping_frame
  = ((run init waiting_trace).1, []) ∧
  ¬ (∃ payload,
       In (Send 1 payload)
          (on_message all_open (run init waiting_trace).1 1 ping_frame).2 ∧
       get_prop payload "type" = Normal (Some (JStr "error"))).
Proof.
  split; [reflexivity|]. intros (payload & Hin & _). exact Hin.
Qed.

(** C6, amended. A frame that cannot be parsed, and a frame that parses to
    [null] on a registered connection, are answered with one [error]
    message to the sender; a frame that parses but whose type is none of
    "join", "signal", "connected" is ignored without a reply.  In all these
    cases the registry is unchanged and no socket is closed. *)
Theorem protocol_fault_handling rs s w :
  on_message rs s w Throw = (s, [Send w invalid_payload]) ∧
  (∀ c, clients s !! w = Some c →
        on_message rs s w (Normal JNull) = (s, [Send w invalid_payload])) ∧
  (∀ data ty, get_prop data "type" = Normal ty →
              is_string ty "join" = false →
              is_string ty "signal" = false →
              is_string ty "connected" = false →
              on_message rs s w (Normal data) = (s, [])) ∧
  (∀ m, no_close (on_message rs s w m).2).
Proof.
  split; [reflexivity|]. split; [|split].
  - intros c Hw. unfold on_message, message_body; simpl. by rewrite Hw.
  - intros data ty Hty Hj Hs Hc. unfold on_message, message_body; simpl.
    destruct (clients s !! w); [|done].
    rewrite Hty; simpl. by rewrite Hj, Hs, Hc.
  - intros m. unfold on_message, message_body.
    destruct m as [data|]; simpl; [|auto with relay].
    destruct (clients s !! w) as [c|]; simpl; [|auto with relay].
    destruct (get_prop data "type") as [ty|]; simpl; [|auto with relay].
    destruct (is_string ty "join").
    { destruct (get_prop data "name") as [nm|]; simpl; [|auto with relay].
      apply handleJoin_no_close. }
    destruct (is_string ty "signal"); [apply handleSignal_no_close|].
    destruct (is_string ty "connected"); simpl; auto with relay.
Qed.

Lemma protocol_fault_handling_witness :
  clients (run init waiting_trace).1 !! 1 = Some ann ∧
  on_message all_open (run init waiting_trace).1 1 (Normal JNull)
  = ((run init waiting_trace).1, [Send 1 invalid_payload]) ∧
  on_message all_open (run init waiting_trace).1 1 ping_frame
  = ((run init waiting_trace).1, []).
Proof.
  destruct (protocol_fault_handling all_open (run init waiting_trace).1 1)
    as (_ & H1 & H2 & _).
  split; [reflexivity|]. split.
  - by apply (H1 ann).
  - by apply (H2 _ (Some (JStr "ping"))).
Defined.

(** ** Which sends are guarded *)

Lemma handleJoin_sends_open rs s w c nm : sends_open rs (handleJoin rs s w c nm).2.
Proof. unfold handleJoin. repeat case_match; simpl; auto with relay. Qed.

Lemma handleSignal_sends_open rs s w c data :
  sends_open rs (handleSignal rs s w c data).2.
Proof. unfold handleSignal. repeat case_match; simpl; auto with relay. Qed.

Lemma handleDisconnect_sends_open rs s w :
  sends_open rs (handleDisconnect rs s w).2.
Proof. unfold handleDisconnect. repeat case_match; simpl; auto with relay. Qed.

(** C10 does not hold as stated: the [error] reply is sent without looking
    at the transport.  Socket 1 is not open here and the send is made on it
    all the same. *)
Lemma error_reply_not_guarded :
  closed_at 1 1 = WebSocket.CLOSED ∧
  (on_message (closed_at 1) (run init waiting_trace).1 1 Throw).2
  = [Send 1 invalid_payload] ∧
  ¬ sends_open (closed_at 1)
      (on_message (closed_at 1) (run init waiting_trace).1 1 Throw).2.
Proof.
  split; [reflexivity|]. split; [reflexivity|].
  intros H. specialize (H 1 invalid_payload (or_introl eq_refl)).
  discriminate H.
Qed.

(** C10, amended. [sendJSON] sends nothing to a socket that is not open,
    so every message sent by [handleJoin] (matched), [handleSignal] (the
    relayed frame) and [handleDisconnect] (partner-left) goes to an open
    transport and is otherwise dropped without a trace.  The one send that
    is not guarded is the [error] reply of the message handler, which goes
    to the sender of the faulty frame whatever its transport state. *)
Theorem sends_guarded_except_error_reply rs s :
  (∀ w payload, rs w ≠ WebSocket.OPEN → sendJSON rs w payload = []) ∧
  (∀ w c nm, sends_open rs (handleJoin rs s w c nm).2) ∧
  (∀ w c data, sends_open rs (handleSignal rs s w c data).2) ∧
  (∀ w, sends_open rs (handleDisconnect rs s w).2) ∧
  (∀ ev w payload,
     In (Send w payload) (step rs s ev).2 →
     rs w = WebSocket.OPEN ∨
     (payload = invalid_payload ∧
      ∃ m, ev = EvMessage w m ∧ message_body rs s w m = Throw)).
Proof.
  split; [|split; [|split; [|split]]].
  - intros w payload Hne. unfold sendJSON.
    destruct (WebSocket.is_open (rs w)) eqn:E; [|done].
    by apply is_open_true in E.
  - intros. apply handleJoin_sends_open.
  - intros. apply handleSignal_sends_open.
  - intros. apply handleDisconnect_sends_open.
  - intros [x origin uuid|x m|x] w payload; simpl.
    + unfold on_connection. case_match; simpl; [|tauto].
      by intros [?|[]].
    + unfold on_message.
      destruct (message_body rs s x m) as [r|] eqn:Hbody.
      * intros Hin. left. revert Hin.
        unfold message_body in Hbody.
        destruct m as [data|]; simpl in Hbody; [|discriminate].
        destruct (clients s !! x) as [c|]; simpl in Hbody;
          [|inversion Hbody; subst; simpl; tauto].
        destruct (get_prop data "type") as [ty|]; simpl in Hbody;
          [|discriminate].
        destruct (is_string ty "join").
        { destruct (get_prop data "name") as [nm|]; simpl in Hbody;
            [|discriminate].
          inversion Hbody; subst. apply handleJoin_sends_open. }
        destruct (is_string ty "signal").
        { inversion Hbody; subst. apply handleSignal_sends_open. }
        destruct (is_string ty "connected");
          inversion Hbody; subst; simpl; tauto.
      * simpl. intros [Heq|[]]. inversion Heq; subst.
        right. split; [done|]. by exists m.
    + intros Hin. left. revert Hin. apply handleDisconnect_sends_open.
Qed.

Lemma sends_guarded_except_error_reply_witness :
  closed_at 2 2 ≠ WebSocket.OPEN ∧
  sendJSON (closed_at 2) 2 partner_left = [] ∧
  (closed_at 1 1 = WebSocket.OPEN ∨
   invalid_payload = invalid_payload ∧
   ∃ m, EvMessage 1 Throw = EvMessage 1 m ∧
        message_body (closed_at 1) (run init waiting_trace).1 1 m = Throw).
Proof.
  destruct (sends_guarded_except_error_reply (closed_at 2)
              (run init waiting_trace).1) as (H1 & _).
  destruct (sends_guarded_except_error_reply (closed_at 1)
              (run init waiting_trace).1) as (_ & _ & _ & _ & H5).
  split; [discriminate|]. split.
  - apply H1. discriminate.
  - apply (H5 (EvMessage 1 Throw) 1 invalid_payload). simpl. by left.
Defined.

(** ** Pairing *)

(** [handleJoin] sends something only when it pairs the joiner with a
    Searching connection that waits in the slot. *)
Lemma handleJoin_sends_only_when_pairing rs s w c nm :
  clients s !! w = Some c →
  (handleJoin rs s w c nm).2 ≠ [] →
  state c ≠ STATES.SEARCHING ∧
  ∃ p pd, waitingUser s = Some p ∧ p ≠ w ∧
          clients s !! p = Some pd ∧ state pd = STATES.SEARCHING.
Proof.
  intros Hw. unfold handleJoin.
  destruct (STATES.eqb (state c) STATES.SEARCHING) eqn:Hst; [done|].
  apply STATES_eqb_neq in Hst.
  destruct (waitingUser s) as [p|]; [|done].
  destruct (decide (p = w)) as [|Hne]; [done|].
  rewrite lookup_insert_ne by done.
  destruct (clients s !! p) as [pd|] eqn:Hp; [|done].
  destruct (STATES.eqb (state pd) STATES.SEARCHING) eqn:Hpd; [|done].
  apply STATES_eqb_eq in Hpd. intros _. split; [done|]. by exists p, pd.
Qed.

(** C2 does not hold as stated: when connection 2 joins while connection 1
    waits in the slot, the waiting connection 1 is sent [initiator: false];
    the flag [true] goes to the arriving connection 2. *)
Lemma waiting_side_is_not_initiator :
  waitingUser (run init waiting_trace).1 = Some 1 ∧
  (handleJoin all_open (run init waiting_trace).1 2 bob_idle
              (Some (JStr "Bob"))).2
  = [ Send 2 (matched true (JStr "Ann")); Send 1 (matched false (JStr "Bob")) ] ∧
  ¬ (∀ payload,
       In (Send 1 payload)
          (handleJoin all_open (run init waiting_trace).1 2 bob_idle
                      (Some (JStr "Bob"))).2 →
       get_prop payload "initiator" = Normal (Some (JBool true))).
Proof.
  split; [reflexivity|]. split; [reflexivity|].
  intros H.
  specialize (H (matched false (JStr "Bob")) (or_intror (or_introl eq_refl))).
  discriminate H.
Qed.

(** C2, amended. When a join pairs the arriving connection [w] with the
    Searching connection [p] that waits in the slot, each side whose
    transport is open is sent exactly one [matched] message with the other
    side's display name: first the arriving side with [initiator: true],
    then the previously waiting side with [initiator: false].  Both become
    Connecting with each other as partner and the slot is emptied. *)
Theorem join_pairs_arrival_as_initiator rs s w c nm p pd :
  clients s !! w = Some c →
  state c ≠ STATES.SEARCHING →
  waitingUser s = Some p →
  p ≠ w →
  clients s !! p = Some pd →
  state pd = STATES.SEARCHING →
  let mine := or_default nm (JStr "Stranger") in
  let r := handleJoin rs s w c nm in
  r.2 = (if WebSocket.is_open (rs w)
         then [Send w (matched true (name pd))] else [])
        ++ (if WebSocket.is_open (rs p)
            then [Send p (matched false mine)] else []) ∧
  clients r.1 !! w = Some (Client (id c) mine STATES.CONNECTING (Some p)) ∧
  clients r.1 !! p = Some (Client (id pd) (name pd) STATES.CONNECTING (Some w)) ∧
  (∀ x, x ≠ w → x ≠ p → clients r.1 !! x = clients s !! x) ∧
  waitingUser r.1 = None.
Proof.
  intros Hw Hc Hslot Hne Hp Hpd mine r. subst r. unfold handleJoin.
  apply STATES_eqb_neq in Hc. rewrite Hc, Hslot.
  destruct (decide (p = w)) as [|_]; [done|].
  rewrite lookup_insert_ne by done. rewrite Hp, Hpd. simpl.
  split; [done|]. split; [|split; [|split; [|done]]].
  - rewrite lookup_insert_ne by done. by rewrite lookup_insert_eq.
  - by rewrite lookup_insert_eq.
  - intros x Hxw Hxp. by rewrite !lookup_insert_ne.
Qed.

Lemma join_pairs_arrival_as_initiator_witness :
  let r := handleJoin all_open (run init waiting_trace).1 2 bob_idle
                      (Some (JStr "Bob")) in
  r.2 = [ Send 2 (matched true (JStr "Ann")); Send 1 (matched false (JStr "Bob")) ] ∧
  clients r.1 !! 2 = Some bob_paired ∧
  clients r.1 !! 1 = Some ann_paired ∧
  waitingUser r.1 = None.
Proof.
  destruct (join_pairs_arrival_as_initiator all_open (run init waiting_trace).1
              2 bob_idle (Some (JStr "Bob")) 1 ann)
    as (H1 & H2 & H3 & _ & H5); [reflexivity | discriminate | reflexivity
                                 | discriminate | reflexivity | reflexivity |].
  repeat split; assumption.
Defined.

(** ** Invariants of the reachable registries *)

Lemma handleJoin_no_self_pair rs s w c nm :
  clients s !! w = Some c →
  no_self_pair s → no_self_pair (handleJoin rs s w c nm).1.
Proof.
  intros Hw Hinv. unfold handleJoin.
  repeat case_match; simpl; try done;
    intros x cx Hx; lookup_cases Hx; eauto; try congruence;
    try (intros ?; simplify_eq; by eapply Hinv).
Qed.

Lemma handleDisconnect_no_self_pair rs s w :
  no_self_pair s → no_self_pair (handleDisconnect rs s w).1.
Proof.
  intros Hinv. unfold handleDisconnect.
  repeat case_match; simpl; try done;
    intros x cx Hx; lookup_cases Hx; eauto; try congruence.
Qed.

Lemma step_no_self_pair rs s ev :
  no_self_pair s → no_self_pair (step rs s ev).1.
Proof.
  intros Hinv. destruct ev as [x origin uuid|x m|x]; simpl.
  - unfold on_connection. case_match; simpl; [done|].
    intros y cy Hy. lookup_cases Hy; eauto.
  - unfold on_message, message_body.
    destruct m as [data|]; simpl; [|done].
    destruct (clients s !! x) as [c|] eqn:Hx; simpl; [|done].
    destruct (get_prop data "type") as [ty|]; simpl; [|done].
    destruct (is_string ty "join").
    { destruct (get_prop data "name") as [nm|]; simpl; [|done].
      by apply handleJoin_no_self_pair. }
    destruct (is_string ty "signal").
    { unfold handleSignal. by repeat case_match. }
    destruct (is_string ty "connected"); simpl; [|done].
    intros y cy Hy. lookup_cases Hy; eauto.
  - by apply handleDisconnect_no_self_pair.
Qed.

Lemma handleJoin_searching_in_slot rs s w c nm :
  clients s !! w = Some c →
  searching_in_slot s → searching_in_slot (handleJoin rs s w c nm).1.
Proof.
  intros Hw Hinv. unfold handleJoin.
  destruct (STATES.eqb (state c) STATES.SEARCHING) eqn:Hst; [done|].
  destruct (waitingUser s) as [p|] eqn:Hslot.
  - destruct (decide (p = w)) as [->|Hne].
    { intros x cx Hx Hs. lookup_cases Hx; [done|].
      rewrite (Hinv x cx Hx Hs) in Hslot. congruence. }
    rewrite lookup_insert_ne by done.
    destruct (clients s !! p) as [pd|] eqn:Hp.
    + destruct (STATES.eqb (state pd) STATES.SEARCHING) eqn:Hpd.
      * intros x cx Hx Hs. lookup_cases Hx; try discriminate.
        specialize (Hinv x cx Hx Hs). congruence.
      * intros x cx Hx Hs. lookup_cases Hx; [done|].
        pose proof (Hinv x cx Hx Hs) as Hx'. rewrite Hslot in Hx'.
        simplify_eq. apply STATES_eqb_neq in Hpd. done.
    + intros x cx Hx Hs. lookup_cases Hx; [done|].
      pose proof (Hinv x cx Hx Hs) as Hx'. rewrite Hslot in Hx'.
      simplify_eq.
  - intros x cx Hx Hs. lookup_cases Hx; [done|].
    pose proof (Hinv x cx Hx Hs) as Hx'. congruence.
Qed.

Lemma handleDisconnect_searching_in_slot rs s w :
  searching_in_slot s → searching_in_slot (handleDisconnect rs s w).1.
Proof.
  intros Hinv. unfold handleDisconnect.
  destruct (clients s !! w) as [c|] eqn:Hw; [|done].
  assert (Hslot : ∀ x, x ≠ w → waitingUser s = Some x →
            (if decide (waitingUser s = Some w) then None else waitingUser s)
            = Some x).
  { intros x Hne Hx. case_decide; congruence. }
  destruct (partner c) as [p|]; [destruct (clients s !! p) as [pd|] eqn:Hp|];
    simpl; intros x cx Hx Hs; lookup_cases Hx; apply Hslot; eauto.
Qed.

Lemma step_searching_in_slot rs s ev :
  searching_in_slot s → searching_in_slot (step rs s ev).1.
Proof.
  intros Hinv. destruct ev as [x origin uuid|x m|x]; simpl.
  - unfold on_connection. case_match; simpl; [done|].
    intros y cy Hy Hs. lookup_cases Hy; eauto.
  - unfold on_message, message_body.
    destruct m as [data|]; simpl; [|done].
    destruct (clients s !! x) as [c|] eqn:Hx; simpl; [|done].
    destruct (get_prop data "type") as [ty|]; simpl; [|done].
    destruct (is_string ty "join").
    { destruct (get_prop data "name") as [nm|]; simpl; [|done].
      by apply handleJoin_searching_in_slot. }
    destruct (is_string ty "signal").
    { unfold handleSignal. by repeat case_match. }
    destruct (is_string ty "connected"); simpl; [|done].
    intros y cy Hy Hs. lookup_cases Hy; eauto.
  - by apply handleDisconnect_searching_in_slot.
Qed.

Lemma reachable_invariants s :
  reachable s → no_self_pair s ∧ searching_in_slot s.
Proof.
  induction 1 as [|s rs ev _ [IH1 IH2]].
  - split; intros w c Hw; simpl in Hw; by rewrite lookup_empty in Hw.
  - split; [by apply step_no_self_pair | by apply step_searching_in_slot].
Qed.

(** C3. In every registry the relay can reach, by joins or any other
    events, no registered connection has itself as partner, and the match
    slot names at most one connection; moreover every Searching connection
    is that occupant, so at most one connection waits at any time. *)
Theorem no_self_pair_and_single_waiter s :
  reachable s →
  no_self_pair s ∧
  (∀ w1 w2, waitingUser s = Some w1 → waitingUser s = Some w2 → w1 = w2) ∧
  (∀ w1 w2 c1 c2,
     clients s !! w1 = Some c1 → state c1 = STATES.SEARCHING →
     clients s !! w2 = Some c2 → state c2 = STATES.SEARCHING →
     w1 = w2).
Proof.
  intros Hr. destruct (reachable_invariants s Hr) as [H1 H2].
  split; [done|]. split.
  - congruence.
  - intros w1 w2 c1 c2 Hw1 Hs1 Hw2 Hs2.
    pose proof (H2 _ _ Hw1 Hs1). pose proof (H2 _ _ Hw2 Hs2). congruence.
Qed.

Lemma no_self_pair_and_single_waiter_witness :
  reachable (run init rejoin_trace).1 ∧
  no_self_pair (run init rejoin_trace).1.
Proof.
  assert (Hr : reachable (run init rejoin_trace).1)
    by apply run_reachable, reachable_init.
  split; [exact Hr|].
  exact (proj1 (no_self_pair_and_single_waiter _ Hr)).
Defined.

(** ** Stale slot, rejoin while paired *)

(** C8. In a reachable registry, a join by a registered connection that
    finds the slot held by a stale occupant (one that is not registered or
    no longer Searching) pairs nobody: the joiner's name is recorded, it
    becomes Searching and takes the slot, no other record changes and
    nothing is sent. *)
Theorem join_replaces_stale_occupant rs s w c nm p :
  reachable s →
  clients s !! w = Some c →
  waitingUser s = Some p →
  stale s p →
  handleJoin rs s w c nm =
    (Registry (<[w := Client (id c) (or_default nm (JStr "Stranger"))
                             STATES.SEARCHING (partner c)]> (clients s))
              (Some w),
     []).
Proof.
  intros Hr Hw Hslot Hstale.
  destruct (reachable_invariants s Hr) as [_ Hinv].
  unfold handleJoin.
  destruct (STATES.eqb (state c) STATES.SEARCHING) eqn:Hst.
  { apply STATES_eqb_eq in Hst. pose proof (Hinv _ _ Hw Hst) as Hx.
    rewrite Hslot in Hx. simplify_eq. by destruct (Hstale c). }
  rewrite Hslot. destruct (decide (p = w)) as [|Hne]; [done|].
  rewrite lookup_insert_ne by done.
  destruct (clients s !! p) as [pd|] eqn:Hp; [|done].
  destruct (STATES.eqb (state pd) STATES.SEARCHING) eqn:Hpd; [|done].
  apply STATES_eqb_eq in Hpd. by destruct (Hstale pd).
Qed.

Lemma join_replaces_stale_occupant_witness :
  reachable (run init stale_trace).1 ∧
  waitingUser (run init stale_trace).1 = Some 1 ∧
  stale (run init stale_trace).1 1 ∧
  (handleJoin all_open (run init stale_trace).1 2 bob_idle (Some (JStr "Bob"))).2
  = [] ∧
  waitingUser
    (handleJoin all_open (run init stale_trace).1 2 bob_idle (Some (JStr "Bob"))).1
  = Some 2.
Proof.
  assert (Hr : reachable (run init stale_trace).1)
    by apply run_reachable, reachable_init.
  assert (Hst : stale (run init stale_trace).1 1).
  { intros pd Hpd. vm_compute in Hpd. by simplify_eq. }
  split; [exact Hr|]. split; [reflexivity|]. split; [exact Hst|].
  rewrite (join_replaces_stale_occupant all_open (run init stale_trace).1
             2 bob_idle (Some (JStr "Bob")) 1 Hr eq_refl eq_refl Hst).
  split; reflexivity.
Defined.

(** C9 does not hold as stated: connection 1 is paired with connection 2
    (Connecting, partner 2); connection 2 has asked for a new match and
    waits in the slot.  The join of connection 1 pairs the two again, so
    the record of the former partner changes (Searching to Connecting) and
    it is sent a [matched] message. *)
Lemma rejoin_can_repair_with_former_partner :
  let s := (run init partner_waits_trace).1 in
  let r := handleJoin all_open s 1 ann_paired (Some (JStr "Ann")) in
  clients s !! 1 = Some ann_paired ∧
  clients s !! 2 = Some (Client "u2" (JStr "Bob") STATES.SEARCHING (Some 1)) ∧
  clients r.1 !! 2 = Some bob_paired ∧
  r.2 = [ Send 1 (matched true (JStr "Bob")); Send 2 (matched false (JStr "Ann")) ] ∧
  ¬ (clients r.1 !! 2 = clients s !! 2 ∧ ∀ payload, ¬ In (Send 2 payload) r.2).
Proof.
  simpl. split; [reflexivity|]. split; [reflexivity|].
  split; [reflexivity|]. split; [reflexivity|].
  intros [H _]. vm_compute in H. discriminate H.
Qed.

(** A join from a paired connection [w] whose partner [p] is not the
    Searching occupant of the slot: the record of [p] stays as it was and
    nothing is sent to [p]; [w] takes the slot or is paired with the
    Searching occupant. *)
Lemma rejoin_other_partner_untouched rs s w c nm p :
  clients s !! w = Some c →
  state c = STATES.CONNECTING ∨ state c = STATES.CONNECTED →
  partner c = Some p →
  p ≠ w →
  ¬ (waitingUser s = Some p ∧
     ∃ pd, clients s !! p = Some pd ∧ state pd = STATES.SEARCHING) →
  let mine := or_default nm (JStr "Stranger") in
  let r := handleJoin rs s w c nm in
  clients r.1 !! p = clients s !! p ∧
  (∀ payload, ¬ In (Send p payload) r.2) ∧
  ((waitingUser r.1 = Some w ∧ r.2 = [] ∧
    clients r.1 !! w = Some (Client (id c) mine STATES.SEARCHING (Some p)))
   ∨
   (∃ q qd, waitingUser s = Some q ∧ q ≠ w ∧ q ≠ p ∧
            clients s !! q = Some qd ∧ state qd = STATES.SEARCHING ∧
            waitingUser r.1 = None ∧
            clients r.1 !! w = Some (Client (id c) mine STATES.CONNECTING (Some q)) ∧
            clients r.1 !! q =
              Some (Client (id qd) (name qd) STATES.CONNECTING (Some w)))).
Proof.
  intros Hw Hst Hp Hne Hnot mine r. subst r mine. unfold handleJoin.
  assert (Hs : STATES.eqb (state c) STATES.SEARCHING = false).
  { apply STATES_eqb_neq. destruct Hst as [-> | ->]; discriminate. }
  rewrite Hs.
  set (c1 := set_state (set_name c (or_default nm (JStr "Stranger")))
                       STATES.SEARCHING).
  assert (Hwait :
    let r := (Registry (<[w := c1]> (clients s)) (Some w), @nil effect) in
    clients r.1 !! p = clients s !! p ∧
    (∀ payload, ¬ In (Send p payload) r.2) ∧
    waitingUser r.1 = Some w ∧ r.2 = [] ∧
    clients r.1 !! w =
      Some (Client (id c) (or_default nm (JStr "Stranger")) STATES.SEARCHING
                   (Some p))).
  { simpl. rewrite lookup_insert_ne by done. rewrite lookup_insert_eq.
    unfold c1, set_state, set_name; simpl. rewrite Hp.
    repeat split; try done. tauto. }
  destruct Hwait as (W1 & W2 & W3 & W4 & W5).
  destruct (waitingUser s) as [q|] eqn:Hslot; [|by (split; [|split; [|left]])].
  destruct (decide (q = w)) as [|Hqw]; [by (split; [|split; [|left]])|].
  rewrite lookup_insert_ne by done.
  destruct (clients s !! q) as [qd|] eqn:Hq; [|by (split; [|split; [|left]])].
  destruct (STATES.eqb (state qd) STATES.SEARCHING) eqn:Hqd;
    [|by (split; [|split; [|left]])].
  apply STATES_eqb_eq in Hqd.
  assert (Hqp : q ≠ p).
  { intros ->. apply Hnot. split; [done|]. by exists qd. }
  simpl. split; [|split].
  - by rewrite !lookup_insert_ne.
  - intros payload Hin.
    apply in_app_or in Hin as [Hin|Hin];
      apply sendJSON_in in Hin as (Heq & _); congruence.
  - right. exists q, qd. repeat split; try done.
    + rewrite lookup_insert_ne by done. rewrite lookup_insert_eq.
      unfold c1, set_partner, set_state, set_name; simpl. done.
    + by rewrite lookup_insert_eq.
Qed.

(** ** Disconnect *)

(** C4 does not hold as stated: connections 1 and 2 are paired and the
    transport of 2 is no longer open when 1 disconnects; the partner
    reference of 2 is cleared but no [partner-left] message is sent. *)
Lemma partner_left_not_sent_to_closed_transport :
  let s := (run init paired_trace).1 in
  let r := handleDisconnect (closed_at 2) s 1 in
  clients s !! 1 = Some ann_paired ∧
  clients s !! 2 = Some bob_paired ∧
  clients r.1 !! 2 = Some (set_partner bob_paired None) ∧
  r.2 = [] ∧
  ¬ In (Send 2 partner_left) r.2.
Proof.
  simpl. split; [reflexivity|]. split; [reflexivity|].
  split; [reflexivity|]. split; [reflexivity|].
  intros H. vm_compute in H. exact H.
Qed.

(** C4, amended. When a registered connection [w] disconnects, its entry
    is removed and the slot is cleared if it named [w] (and is left alone
    otherwise).  If [w] had a registered partner [p], the partner reference
    of [p] is set to null and [p] is sent exactly one [partner-left]
    message when its transport is open, none when it is not; without a
    partner nothing is sent.  Afterwards neither the slot nor the former
    partner references [w], and when partner links were reciprocal before,
    no remaining connection does. *)
Theorem disconnect_cleans_up rs s w c :
  clients s !! w = Some c →
  let r := handleDisconnect rs s w in
  clients r.1 !! w = None ∧
  waitingUser r.1 ≠ Some w ∧
  (waitingUser s = Some w → waitingUser r.1 = None) ∧
  (waitingUser s ≠ Some w → waitingUser r.1 = waitingUser s) ∧
  (∀ p pd, partner c = Some p → p ≠ w → clients s !! p = Some pd →
     clients r.1 !! p = Some (set_partner pd None) ∧
     r.2 = if WebSocket.is_open (rs p) then [Send p partner_left] else []) ∧
  (partner c = None → r.2 = [] ∧ clients r.1 = delete w (clients s)) ∧
  (∀ p, partner c = Some p → clients s !! p = None →
     r.2 = [] ∧ clients r.1 = delete w (clients s)) ∧
  (reciprocal s → ∀ x cx, clients r.1 !! x = Some cx → partner cx ≠ Some w).
Proof.
  intros Hw r. subst r. unfold handleDisconnect. rewrite Hw.
  set (wu := if decide (waitingUser s = Some w) then None else waitingUser s).
  assert (Hwu1 : wu ≠ Some w) by (unfold wu; case_decide; congruence).
  assert (Hwu2 : waitingUser s = Some w → wu = None)
    by (unfold wu; case_decide; congruence).
  assert (Hwu3 : waitingUser s ≠ Some w → wu = waitingUser s)
    by (unfold wu; case_decide; congruence).
  destruct (partner c) as [p|] eqn:Hp;
    [destruct (clients s !! p) as [pd|] eqn:Hpd|]; simpl.
  - split; [by rewrite lookup_delete_eq|]. do 3 (split; [done|]).
    split; [|split; [done|split]].
    + intros p' pd' Heq Hne Hpd'. simplify_eq.
      rewrite lookup_delete_ne by done. rewrite lookup_insert_eq.
      split; [done|]. unfold sendJSON. done.
    + intros p' Heq Hnone. simplify_eq.
    + intros Hrec x cx Hx Hcx. lookup_cases Hx.
      pose proof (Hrec x w cx c Hx Hw) as [Hxw _].
      specialize (Hxw Hcx). congruence.
  - split; [by rewrite lookup_delete_eq|]. do 3 (split; [done|]).
    split; [|split; [done|split; [done|]]].
    + intros p' pd' Heq Hne Hpd'. simplify_eq.
    + intros Hrec x cx Hx Hcx. lookup_cases Hx.
      pose proof (Hrec x w cx c Hx Hw) as [Hxw _].
      specialize (Hxw Hcx). congruence.
  - split; [by rewrite lookup_delete_eq|]. do 3 (split; [done|]).
    split; [done|]. split; [done|]. split; [done|].
    intros Hrec x cx Hx Hcx. lookup_cases Hx.
    pose proof (Hrec x w cx c Hx Hw) as [Hxw _].
    specialize (Hxw Hcx). congruence.
Qed.

Lemma paired_state_clients :
  clients (run init paired_trace).1
  = <[2 := bob_paired]> (<[1 := ann_paired]> ∅).
Proof. vm_compute. reflexivity. Qed.

Lemma paired_state_reciprocal : reciprocal (run init paired_trace).1.
Proof.
  intros a b ca cb Ha Hb. rewrite paired_state_clients in Ha, Hb.
  rewrite !lookup_insert in Ha. rewrite !lookup_insert in Hb.
  rewrite lookup_empty in Ha, Hb.
  unfold ann_paired, bob_paired in *.
  repeat case_decide; simplify_eq; simpl; split; intros ?; by simplify_eq.
Qed.

Lemma disconnect_cleans_up_witness :
  let s := (run init paired_trace).1 in
  let r := handleDisconnect all_open s 1 in
  clients s !! 1 = Some ann_paired ∧
  clients r.1 !! 1 = None ∧
  clients r.1 !! 2 = Some (Client "u2" (JStr "Bob") STATES.CONNECTING None) ∧
  r.2 = [Send 2 partner_left] ∧
  reciprocal s ∧
  (∀ x cx, clients r.1 !! x = Some cx → partner cx ≠ Some 1).
Proof.
  destruct (disconnect_cleans_up all_open (run init paired_trace).1 1 ann_paired)
    as (H1 & _ & _ & _ & H5 & _ & _ & H7); [reflexivity|].
  destruct (H5 2 bob_paired) as [H5a H5b]; [reflexivity | discriminate
                                            | reflexivity |].
  split; [reflexivity|]. split; [exact H1|]. split; [exact H5a|].
  split; [exact H5b|]. split; [exact paired_state_reciprocal|].
  exact (H7 paired_state_reciprocal).
Defined.

(** ** Reciprocity of partner links *)

Lemma linked_reciprocal s : linked s → reciprocal s.
Proof.
  intros Hl a b ca cb Ha Hb. split; intros Hp.
  - destruct (Hl _ _ _ Ha Hp) as (cb' & Hb' & Hback). congruence.
  - destruct (Hl _ _ _ Hb Hp) as (ca' & Ha' & Hback). congruence.
Qed.

Lemma handleJoin_linked rs s w c nm :
  clients s !! w = Some c →
  partner c = None →
  linked s ∧ searching_unpaired s →
  linked (handleJoin rs s w c nm).1 ∧
  searching_unpaired (handleJoin rs s w c nm).1.
Proof.
  intros Hw Hnone [Hl Hu]. unfold handleJoin.
  destruct (STATES.eqb (state c) STATES.SEARCHING) eqn:Hst; [done|].
  assert (Hwait :
    let s' := Registry
      (<[w := set_state (set_name c (or_default nm (JStr "Stranger")))
                        STATES.SEARCHING]> (clients s)) (Some w) in
    linked s' ∧ searching_unpaired s').
  { split.
    - intros a ca b Ha Hp. lookup_cases Ha; [congruence|].
      destruct (Hl _ _ _ Ha Hp) as (cb & Hb & Hback).
      destruct (decide (b = w)) as [->|Hbw]; [congruence|].
      exists cb. simpl. by rewrite lookup_insert_ne.
    - intros x cx Hx Hs. lookup_cases Hx; eauto. }
  destruct (waitingUser s) as [p|] eqn:Hslot; [|done].
  destruct (decide (p = w)) as [|Hne]; [done|].
  rewrite lookup_insert_ne by done.
  destruct (clients s !! p) as [pd|] eqn:Hp; [|done].
  destruct (STATES.eqb (state pd) STATES.SEARCHING) eqn:Hpd; [|done].
  apply STATES_eqb_eq in Hpd. pose proof (Hu _ _ Hp Hpd) as Hpnone.
  split.
  - intros a ca b Ha Hpa. lookup_cases Ha; simplify_eq.
    + eexists. rewrite lookup_insert_ne by done.
      rewrite lookup_insert_eq. done.
    + eexists. rewrite lookup_insert_eq. done.
    + destruct (Hl _ _ _ Ha Hpa) as (cb & Hb & Hback).
      destruct (decide (b = w)) as [->|Hbw]; [congruence|].
      destruct (decide (b = p)) as [->|Hbp]; [congruence|].
      exists cb. by rewrite !lookup_insert_ne.
  - intros x cx Hx Hs. lookup_cases Hx; eauto.
Qed.

Lemma handleDisconnect_linked rs s w :
  linked s ∧ searching_unpaired s →
  linked (handleDisconnect rs s w).1 ∧
  searching_unpaired (handleDisconnect rs s w).1.
Proof.
  intros [Hl Hu]. unfold handleDisconnect.
  destruct (clients s !! w) as [c|] eqn:Hw; [|done].
  assert (Hback : ∀ a ca, clients s !! a = Some ca → partner ca = Some w →
                          partner c = Some a).
  { intros a ca Ha Hp. destruct (Hl _ _ _ Ha Hp) as (c' & Hc' & ?). congruence. }
  destruct (partner c) as [p|] eqn:Hp;
    [destruct (clients s !! p) as [pd|] eqn:Hpd|]; simpl.
  - split.
    + intros a ca b Ha Hpa. lookup_cases Ha; simplify_eq.
      destruct (Hl _ _ _ Ha Hpa) as (cb & Hb & Hba).
      destruct (decide (b = w)) as [->|Hbw].
      { specialize (Hback _ _ Ha Hpa). congruence. }
      destruct (decide (b = p)) as [->|Hbp].
      { destruct (Hl _ _ _ Hw Hp) as (pd' & Hpd' & Hpw). congruence. }
      exists cb. rewrite lookup_delete_ne by done.
      by rewrite lookup_insert_ne.
    + intros x cx Hx Hs. lookup_cases Hx; eauto.
  - destruct (Hl _ _ _ Hw Hp) as (pd' & Hpd' & _). congruence.
  - split.
    + intros a ca b Ha Hpa. lookup_cases Ha; simplify_eq.
      destruct (Hl _ _ _ Ha Hpa) as (cb & Hb & Hba).
      destruct (decide (b = w)) as [->|Hbw].
      { specialize (Hback _ _ Ha Hpa). congruence. }
      exists cb. by rewrite lookup_delete_ne.
    + intros x cx Hx Hs. lookup_cases Hx; eauto.
Qed.

Lemma step_linked rs s ev :
  calm s ev →
  linked s ∧ searching_unpaired s →
  linked (step rs s ev).1 ∧ searching_unpaired (step rs s ev).1.
Proof.
  intros Hcalm [Hl Hu]. destruct ev as [x origin uuid|x m|x]; simpl in *.
  - unfold on_connection. case_match; simpl; [done|]. split.
    + intros a ca b Ha Hp. lookup_cases Ha; simplify_eq.
      destruct (Hl _ _ _ Ha Hp) as (cb & Hb & Hba).
      destruct (decide (b = x)) as [->|Hbx]; [congruence|].
      exists cb. by rewrite lookup_insert_ne.
    + intros y cy Hy Hs. lookup_cases Hy; eauto.
  - unfold on_message, message_body.
    destruct m as [data|]; simpl; [|done].
    destruct (clients s !! x) as [c|] eqn:Hx; simpl; [|done].
    destruct (get_prop data "type") as [ty|] eqn:Hty; simpl; [|done].
    destruct (is_string ty "join") eqn:Hj.
    { destruct (get_prop data "name") as [nm|]; simpl; [|done].
      apply handleJoin_linked; [done| |done].
      apply Hcalm; [|done]. by exists data, ty. }
    destruct (is_string ty "signal").
    { unfold handleSignal. by repeat case_match. }
    destruct (is_string ty "connected"); simpl; [|done]. split.
    + intros a ca b Ha Hp. lookup_cases Ha; simplify_eq.
      * destruct (Hl _ _ _ Hx Hp) as (cb & Hb & Hba).
        destruct (decide (b = a)) as [->|Hba'].
        { eexists. rewrite lookup_insert_eq. split; [done|]. simpl. congruence. }
        exists cb. by rewrite lookup_insert_ne.
      * destruct (Hl _ _ _ Ha Hp) as (cb & Hb & Hba).
        destruct (decide (b = x)) as [->|Hbx].
        { eexists. rewrite lookup_insert_eq. split; [done|]. simpl. congruence. }
        exists cb. by rewrite lookup_insert_ne.
    + intros y cy Hy Hs. lookup_cases Hy; eauto.
  - by apply handleDisconnect_linked.
Qed.

(** As long as every socket connects once and no connection sends [join]
    while it has a partner, partner links stay reciprocal and never name a
    connection that has left. *)
Lemma calm_reachable_reciprocal s :
  calm_reachable s → linked s ∧ reciprocal s.
Proof.
  intros Hr.
  assert (H : linked s ∧ searching_unpaired s).
  { induction Hr as [|s rs ev _ IH Hcalm].
    - split; intros w c; simpl; rewrite lookup_empty; discriminate.
    - by apply step_linked. }
  split; [tauto|]. apply linked_reciprocal; tauto.
Qed.

(** C1. The code does not keep partner links reciprocal.  Connections 1
    and 2 are paired; 1 sends [join] again and is then paired with the
    newly joining 3.  Now 2 still names 1 as its partner while 1 names 3.
    When 2 later disconnects, 1 is sent [partner-left] and loses its
    partner reference although its partner 3 is still there and still
    names 1. *)
Theorem rejoin_breaks_reciprocity :
  let s := (run init rejoin_trace).1 in
  let r := handleDisconnect all_open s 2 in
  clients s !! 1 = Some (Client "u1" (JStr "Ann") STATES.CONNECTING (Some 3)) ∧
  clients s !! 2 = Some (Client "u2" (JStr "Bob") STATES.CONNECTING (Some 1)) ∧
  clients s !! 3 = Some (Client "u3" (JStr "Cy") STATES.CONNECTING (Some 1)) ∧
  reachable s ∧
  ¬ reciprocal s ∧
  r.2 = [Send 1 partner_left] ∧
  clients r.1 !! 1 = Some (Client "u1" (JStr "Ann") STATES.CONNECTING None) ∧
  clients r.1 !! 3 = Some (Client "u3" (JStr "Cy") STATES.CONNECTING (Some 1)) ∧
  ¬ reciprocal r.1.
Proof.
  cbv zeta. split; [reflexivity|]. split; [reflexivity|]. split; [reflexivity|].
  split; [apply run_reachable, reachable_init|].
  split; [|split; [reflexivity|split; [reflexivity|split; [reflexivity|]]]].
  - intros Hrec.
    destruct (Hrec 2 1 (Client "u2" (JStr "Bob") STATES.CONNECTING (Some 1))
                (Client "u1" (JStr "Ann") STATES.CONNECTING (Some 3))
                eq_refl eq_refl) as [H _].
    specialize (H eq_refl). discriminate H.
  - intros Hrec.
    destruct (Hrec 3 1 (Client "u3" (JStr "Cy") STATES.CONNECTING (Some 1))
                (Client "u1" (JStr "Ann") STATES.CONNECTING None)
                eq_refl eq_refl) as [H _].
    specialize (H eq_refl). discriminate H.
Qed.

(** ** The origin allow-list on both sides *)

Lemma includes_allowed_not_missing origin :
  includes ALLOWED_ORIGINS origin = true → origin_missing origin = false.
Proof.
  destruct origin as [o|]; simpl; [|discriminate].
  destruct (String.eqb o "") eqn:E; [|done].
  apply String.eqb_eq in E. subst o. discriminate.
Qed.

(** X1. The WebSocket origin check is strictly narrower than the CORS
    rule of the HTTP side: a socket is registered only for an origin that
    CORS allows too, while a request without an Origin header (or with an
    empty one) passes CORS but, as a socket, is closed with code 1008 and
    leaves the registry as it was. *)
Theorem ws_origin_check_narrower_than_cors s w origin uuid :
  (clients (on_connection s w origin uuid).1 !! w
     = Some (Client uuid (JStr "Anonymous") STATES.IDLE None) ∧
   (on_connection s w origin uuid).2 = [] ∧
   cors_origin origin = CorsAllow)
  ∨
  (on_connection s w origin uuid = (s, [Close w 1008 "Origin not allowed"]) ∧
   (cors_origin origin = CorsAllow ↔ origin_missing origin = true)).
Proof.
  unfold on_connection, cors_origin.
  destruct (includes ALLOWED_ORIGINS origin) eqn:Hin; simpl.
  - left. rewrite lookup_insert_eq. split; [done|]. split; [done|].
    by rewrite (includes_allowed_not_missing _ Hin).
  - right. split; [done|].
    destruct (origin_missing origin); split; congruence.
Qed.

(** ** More invariants of the reachable registries *)

Lemma truthy_or_default v : truthy (or_default v (JStr "Stranger")) = true.
Proof.
  destruct v as [x|]; simpl; [|done].
  by destruct (truthy x) eqn:E.
Qed.

Lemma handleJoin_slot_registered rs s w c nm :
  clients s !! w = Some c →
  slot_registered s → slot_registered (handleJoin rs s w c nm).1.
Proof.
  intros Hw Hinv. unfold handleJoin.
  assert (Hwait : ∀ c1, slot_registered
                          (Registry (<[w := c1]> (clients s)) (Some w))).
  { intros c1 x Hx. simpl in *. simplify_eq. rewrite lookup_insert_eq. eauto. }
  repeat case_match; simpl; try done; apply Hwait.
Qed.

Lemma handleDisconnect_slot_registered rs s w :
  slot_registered s → slot_registered (handleDisconnect rs s w).1.
Proof.
  intros Hinv. unfold handleDisconnect.
  destruct (clients s !! w) as [c|] eqn:Hw; [|done].
  assert (Hkeep : ∀ x (m : gmap ws client),
            (if decide (waitingUser s = Some w) then None else waitingUser s)
            = Some x →
            (∀ y, y ≠ w → is_Some (clients s !! y) → is_Some (m !! y)) →
            is_Some (delete w m !! x)).
  { intros x m Hx Hm. case_decide as Hd; [discriminate|].
    assert (x ≠ w) by congruence.
    rewrite lookup_delete_ne by done. apply Hm; [done|]. by apply Hinv. }
  destruct (partner c) as [p|]; [destruct (clients s !! p) as [pd|] eqn:Hp|];
    simpl; intros x Hx; apply Hkeep; try done;
    intros y Hy Hsome; rewrite ?lookup_insert; repeat case_decide; eauto.
Qed.

Lemma step_slot_registered rs s ev :
  slot_registered s → slot_registered (step rs s ev).1.
Proof.
  intros Hinv. destruct ev as [x origin uuid|x m|x]; simpl.
  - unfold on_connection. case_match; simpl; [done|].
    intros y Hy. simpl in *. rewrite lookup_insert. case_decide; eauto.
  - unfold on_message, message_body.
    destruct m as [data|]; simpl; [|done].
    destruct (clients s !! x) as [c|] eqn:Hx; simpl; [|done].
    destruct (get_prop data "type") as [ty|]; simpl; [|done].
    destruct (is_string ty "join").
    { destruct (get_prop data "name") as [nm|]; simpl; [|done].
      by apply handleJoin_slot_registered. }
    destruct (is_string ty "signal").
    { unfold handleSignal. by repeat case_match. }
    destruct (is_string ty "connected"); simpl; [|done].
    intros y Hy. simpl in *. rewrite lookup_insert. case_decide; eauto.
  - by apply handleDisconnect_slot_registered.
Qed.

Lemma reachable_slot_registered s : reachable s → slot_registered s.
Proof.
  induction 1 as [|s rs ev _ IH].
  - intros w Hw. discriminate Hw.
  - by apply step_slot_registered.
Qed.

(** X2. In every registry the relay can reach, the match slot never names
    a connection that has left: its occupant, if any, has a registry
    entry.  So the [!partnerData] test of [handleJoin] never decides
    anything there; a stale occupant is always one that is registered and
    no longer Searching. *)
Theorem slot_occupant_is_registered s p :
  reachable s →
  waitingUser s = Some p →
  ∃ pd, clients s !! p = Some pd ∧
        (stale s p ↔ state pd ≠ STATES.SEARCHING).
Proof.
  intros Hr Hp. destruct (reachable_slot_registered s Hr p Hp) as [pd Hpd].
  exists pd. split; [done|]. split.
  - intros Hst. by apply Hst.
  - intros Hne pd' Hpd'. congruence.
Qed.

Lemma slot_occupant_is_registered_witness :
  reachable (run init stale_trace).1 ∧
  waitingUser (run init stale_trace).1 = Some 1 ∧
  ∃ pd, clients (run init stale_trace).1 !! 1 = Some pd ∧
        (stale (run init stale_trace).1 1 ↔ state pd ≠ STATES.SEARCHING).
Proof.
  assert (Hr : reachable (run init stale_trace).1)
    by apply run_reachable, reachable_init.
  split; [exact Hr|]. split; [reflexivity|].
  exact (slot_occupant_is_registered _ 1 Hr eq_refl).
Defined.

Lemma handleJoin_names_truthy rs s w c nm :
  clients s !! w = Some c →
  names_truthy s → names_truthy (handleJoin rs s w c nm).1.
Proof.
  intros Hw Hinv. unfold handleJoin.
  destruct (STATES.eqb (state c) STATES.SEARCHING); [done|].
  set (c1 := set_state (set_name c (or_default nm (JStr "Stranger")))
                       STATES.SEARCHING).
  assert (Hc1 : truthy (name c1) = true) by apply truthy_or_default.
  assert (Hwait : names_truthy (Registry (<[w := c1]> (clients s)) (Some w))).
  { intros x cx Hx. simpl in Hx. rewrite lookup_insert in Hx.
    case_decide; simplify_eq; eauto. }
  destruct (waitingUser s) as [p|]; [|done].
  destruct (decide (p = w)) as [|Hne]; [done|].
  rewrite lookup_insert_ne by done.
  destruct (clients s !! p) as [pd|] eqn:Hp; [|done].
  destruct (STATES.eqb (state pd) STATES.SEARCHING); [|done].
  intros x cx Hx. simpl in Hx. rewrite !lookup_insert in Hx.
  repeat case_decide; simplify_eq;
    first [exact Hc1 | exact (Hinv _ _ Hp) | exact (Hinv _ _ Hx)].
Qed.

Lemma handleDisconnect_names_truthy rs s w :
  names_truthy s → names_truthy (handleDisconnect rs s w).1.
Proof.
  intros Hinv. unfold handleDisconnect.
  repeat case_match; simpl; try done;
    intros x cx Hx; lookup_cases Hx; eauto.
Qed.

Lemma step_names_truthy rs s ev :
  names_truthy s → names_truthy (step rs s ev).1.
Proof.
  intros Hinv. destruct ev as [x origin uuid|x m|x]; simpl.
  - unfold on_connection. case_match; simpl; [done|].
    intros y cy Hy. lookup_cases Hy; eauto.
  - unfold on_message, message_body.
    destruct m as [data|]; simpl; [|done].
    destruct (clients s !! x) as [c|] eqn:Hx; simpl; [|done].
    destruct (get_prop data "type") as [ty|]; simpl; [|done].
    destruct (is_string ty "join").
    { destruct (get_prop data "name") as [nm|]; simpl; [|done].
      by apply handleJoin_names_truthy. }
    destruct (is_string ty "signal").
    { unfold handleSignal. by repeat case_match. }
    destruct (is_string ty "connected"); simpl; [|done].
    intros y cy Hy. lookup_cases Hy; eauto.
  - by apply handleDisconnect_names_truthy.
Qed.

(** ** Connecting and closing *)

(** X4. A socket that connects and closes without sending a frame leaves
    no trace: when a socket without an entry is accepted in a reachable
    registry and then closes, the registry is the one before the
    connection and nothing was sent to anybody. *)
Theorem connect_then_close_restores_registry rs s w origin uuid :
  reachable s →
  clients s !! w = None →
  includes ALLOWED_ORIGINS origin = true →
  handleDisconnect rs (on_connection s w origin uuid).1 w = (s, []) ∧
  (on_connection s w origin uuid).2 = [].
Proof.
  intros Hr Hw Hin.
  assert (Hslot : waitingUser s ≠ Some w).
  { intros Hs. destruct (reachable_slot_registered s Hr w Hs) as [c Hc].
    congruence. }
  unfold on_connection, handleDisconnect. rewrite Hin. simpl.
  rewrite lookup_insert_eq. simpl. split; [|done].
  destruct (decide (waitingUser s = Some w)) as [|_]; [done|].
  rewrite delete_insert_eq. rewrite delete_id by done.
  by destruct s.
Qed.

Lemma connect_then_close_restores_registry_witness :
  reachable (run init paired_trace).1 ∧
  clients (run init paired_trace).1 !! 3 = None ∧
  handleDisconnect all_open
    (on_connection (run init paired_trace).1 3 origin_ok "u3").1 3
  = ((run init paired_trace).1, []).
Proof.
  assert (Hr : reachable (run init paired_trace).1)
    by apply run_reachable, reachable_init.
  split; [exact Hr|]. split; [reflexivity|].
  exact (proj1 (connect_then_close_restores_registry all_open _ 3 origin_ok "u3"
                  Hr eq_refl eq_refl)).
Defined.

(** X5. A second close of the same socket does nothing: whatever the first
    [handleDisconnect] did, running it again on its result changes no
    entry and sends no second [partner-left]. *)
Theorem disconnect_twice_is_disconnect_once rs rs' s w :
  handleDisconnect rs' (handleDisconnect rs s w).1 w
  = ((handleDisconnect rs s w).1, []).
Proof.
  assert (Hgone : clients (handleDisconnect rs s w).1 !! w = None).
  { unfold handleDisconnect.
    destruct (clients s !! w) as [c|] eqn:Hw; [|done].
    repeat case_match; simpl; apply lookup_delete_eq. }
  unfold handleDisconnect at 1. by rewrite Hgone.
Qed.

(** ** What a frame can and cannot change *)

Lemma handleJoin_record rs s w c nm x cx' :
  clients s !! w = Some c →
  clients (handleJoin rs s w c nm).1 !! x = Some cx' →
  ∃ cx, clients s !! x = Some cx ∧ id cx' = id cx ∧
        (state cx' = state cx ∨ state cx' ≠ STATES.IDLE).
Proof.
  intros Hw. unfold handleJoin.
  destruct (STATES.eqb (state c) STATES.SEARCHING); [by eauto|].
  assert (Hwait : ∀ c1, id c1 = id c → state c1 ≠ STATES.IDLE →
            <[w := c1]> (clients s) !! x = Some cx' →
            ∃ cx, clients s !! x = Some cx ∧ id cx' = id cx ∧
                  (state cx' = state cx ∨ state cx' ≠ STATES.IDLE)).
  { intros c1 Hid Hst Hx. rewrite lookup_insert in Hx.
    case_decide; simplify_eq; eauto. }
  destruct (waitingUser s) as [p|]; [|by apply Hwait].
  destruct (decide (p = w)) as [|Hne]; [by apply Hwait|].
  rewrite lookup_insert_ne by done.
  destruct (clients s !! p) as [pd|] eqn:Hp; [|by apply Hwait].
  destruct (STATES.eqb (state pd) STATES.SEARCHING); [|by apply Hwait].
  simpl. intros Hx. rewrite !lookup_insert in Hx.
  repeat case_decide; simplify_eq; eauto 6.
Qed.

Lemma handleJoin_keeps rs s w c nm x :
  clients s !! w = Some c →
  is_Some (clients s !! x) →
  is_Some (clients (handleJoin rs s w c nm).1 !! x).
Proof.
  intros Hw Hx. unfold handleJoin.
  repeat case_match; simpl; try done;
    rewrite ?lookup_insert; repeat case_decide; eauto.
Qed.

Lemma on_message_record rs s w m x cx' :
  clients (on_message rs s w m).1 !! x = Some cx' →
  ∃ cx, clients s !! x = Some cx ∧ id cx' = id cx ∧
        (state cx' = state cx ∨ state cx' ≠ STATES.IDLE).
Proof.
  unfold on_message, message_body.
  destruct m as [data|]; simpl; [|by eauto].
  destruct (clients s !! w) as [c|] eqn:Hw; simpl; [|by eauto].
  destruct (get_prop data "type") as [ty|]; simpl; [|by eauto].
  destruct (is_string ty "join").
  { destruct (get_prop data "name") as [nm|]; simpl; [|by eauto].
    by apply handleJoin_record. }
  destruct (is_string ty "signal").
  { unfold handleSignal. repeat case_match; simpl; eauto. }
  destruct (is_string ty "connected"); simpl; [|by eauto].
  intros Hx. rewrite lookup_insert in Hx.
  case_decide; simplify_eq; eauto 6.
Qed.

Lemma on_message_keeps rs s w m x :
  is_Some (clients s !! x) →
  is_Some (clients (on_message rs s w m).1 !! x).
Proof.
  intros Hx. unfold on_message, message_body.
  destruct m as [data|]; simpl; [|done].
  destruct (clients s !! w) as [c|] eqn:Hw; simpl; [|done].
  destruct (get_prop data "type") as [ty|]; simpl; [|done].
  destruct (is_string ty "join").
  { destruct (get_prop data "name") as [nm|]; simpl; [|done].
    by apply handleJoin_keeps. }
  destruct (is_string ty "signal").
  { unfold handleSignal. by repeat case_match. }
  destruct (is_string ty "connected"); simpl; [|done].
  rewrite lookup_insert. case_decide; eauto.
Qed.

(** X6. Frames never register or remove a connection and never change an
    [id]: after any frame from any socket, exactly the same sockets have an
    entry, each under the id it had before. *)
Theorem frames_keep_registrations_and_ids rs s w m x :
  id <$> clients (on_message rs s w m).1 !! x = id <$> clients s !! x.
Proof.
  destruct (clients (on_message rs s w m).1 !! x) as [cx'|] eqn:Hx'.
  - destruct (on_message_record _ _ _ _ _ _ Hx') as (cx & Hx & Hid & _).
    rewrite Hx. simpl. by rewrite Hid.
  - destruct (clients s !! x) as [cx|] eqn:Hx; [|done].
    destruct (on_message_keeps rs s w m x) as [cx' Hcx']; [by rewrite Hx|].
    congruence.
Qed.

Lemma handleDisconnect_record rs s w x cx' :
  clients (handleDisconnect rs s w).1 !! x = Some cx' →
  ∃ cx, clients s !! x = Some cx ∧ id cx' = id cx ∧ state cx' = state cx.
Proof.
  unfold handleDisconnect.
  destruct (clients s !! w) as [c|] eqn:Hw; [|by eauto].
  destruct (partner c) as [p|]; [destruct (clients s !! p) as [pd|] eqn:Hp|];
    simpl; intros Hx; lookup_cases Hx; eauto.
Qed.

(** X7. No handler puts a connection back into the Idle state: a
    registered connection that has left Idle is never Idle again after a
    frame or a close of any socket, or after the connection of another
    socket. *)
Theorem no_return_to_idle rs s ev x cx cx' :
  (∀ origin uuid, ev ≠ EvConnection x origin uuid) →
  clients s !! x = Some cx →
  state cx ≠ STATES.IDLE →
  clients (step rs s ev).1 !! x = Some cx' →
  state cx' ≠ STATES.IDLE.
Proof.
  intros Hev Hx Hst. destruct ev as [y origin uuid|y m|y]; simpl.
  - unfold on_connection. case_match; simpl; [congruence|].
    intros Hx'. rewrite lookup_insert in Hx'. case_decide.
    + subst y. by destruct (Hev origin uuid).
    + congruence.
  - intros Hx'.
    destruct (on_message_record _ _ _ _ _ _ Hx') as (c0 & Hc0 & _ & [Hs|Hs]);
      [|done]. congruence.
  - intros Hx'.
    destruct (handleDisconnect_record _ _ _ _ _ Hx') as (c0 & Hc0 & _ & Hs).
    congruence.
Qed.

Lemma no_return_to_idle_witness :
  clients (run init paired_trace).1 !! 2 = Some bob_paired ∧
  state (set_partner bob_paired None) ≠ STATES.IDLE.
Proof.
  split; [reflexivity|].
  apply (no_return_to_idle all_open (run init paired_trace).1 (EvClose 1) 2
           bob_paired (set_partner bob_paired None)).
  - discriminate.
  - reflexivity.
  - discriminate.
  - reflexivity.
Defined.

(** ** Who is sent what *)

(** The messages the handler sends for a parsed frame: the [error] reply
    to the sender, the parsed value for the partner, or a [matched]
    notification for the sender or the waiting connection. *)
Lemma on_message_recipients rs s w m x payload :
  In (Send x payload) (on_message rs s w m).2 →
  (x = w ∧ payload = invalid_payload)
  ∨ (∃ c, clients s !! w = Some c ∧ partner c = Some x ∧
          m = Normal payload ∧ rs x = WebSocket.OPEN)
  ∨ (∃ initiator partnerName,
       payload = matched initiator partnerName ∧
       rs x = WebSocket.OPEN ∧
       ((x = w ∧ initiator = true) ∨
        (waitingUser s = Some x ∧ x ≠ w ∧ initiator = false))).
Proof.
  unfold on_message, message_body.
  destruct m as [data|]; simpl;
    [|intros [H|[]]; inversion H; subst; by left].
  destruct (clients s !! w) as [c|] eqn:Hw; simpl; [|by intros []].
  destruct (get_prop data "type") as [ty|]; simpl;
    [|intros [H|[]]; inversion H; subst; by left].
  destruct (is_string ty "join").
  { destruct (get_prop data "name") as [nm|]; simpl;
      [|intros [H|[]]; inversion H; subst; by left].
    unfold handleJoin.
    destruct (STATES.eqb (state c) STATES.SEARCHING); [by intros []|].
    destruct (waitingUser s) as [p|]; [|by intros []].
    destruct (decide (p = w)) as [|Hne]; [by intros []|].
    destruct (_ !! p) as [pd|]; [|by intros []].
    destruct (STATES.eqb (state pd) STATES.SEARCHING); [|by intros []].
    simpl. intros Hin. right. right.
    apply in_app_or in Hin as [Hin|Hin];
      apply sendJSON_in in Hin as (-> & -> & Hopen); eauto 10. }
  destruct (is_string ty "signal").
  { unfold handleSignal.
    destruct (partner c) as [p|] eqn:Hp; [|by intros []].
    destruct (WebSocket.is_open (rs p)); [|by intros []].
    simpl. intros Hin. apply sendJSON_in in Hin as (-> & -> & Hopen).
    right. left. by exists c. }
  destruct (is_string ty "connected"); by intros [].
Qed.

(** X9. A close notifies nobody but the partner: every message sent by
    [handleDisconnect] is a [partner-left] to the registered connection
    that the departing one names as partner, over an open transport; in a
    reachable registry that is never the departing socket itself. *)
Theorem close_notifies_only_partner rs s w x payload :
  reachable s →
  In (Send x payload) (handleDisconnect rs s w).2 →
  payload = partner_left ∧ x ≠ w ∧ rs x = WebSocket.OPEN ∧
  (handleDisconnect rs s w).2 = [Send x partner_left] ∧
  ∃ c, clients s !! w = Some c ∧ partner c = Some x ∧
       is_Some (clients s !! x).
Proof.
  intros Hr. destruct (reachable_invariants s Hr) as [Hself _].
  unfold handleDisconnect.
  destruct (clients s !! w) as [c|] eqn:Hw; [|by intros []].
  destruct (partner c) as [p|] eqn:Hp; [|by intros []].
  destruct (clients s !! p) as [pd|] eqn:Hpd; [|by intros []].
  simpl. intros Hin.
  pose proof Hin as Hin'. apply sendJSON_in in Hin' as (-> & -> & Hopen).
  split; [done|]. split.
  { intros ->. by apply (Hself w c). }
  split; [done|]. split.
  - unfold sendJSON. apply is_open_true in Hopen. by rewrite Hopen.
  - exists c. rewrite Hpd. eauto.
Qed.

Lemma close_notifies_only_partner_witness :
  reachable (run init paired_trace).1 ∧
  (handleDisconnect all_open (run init paired_trace).1 1).2
  = [Send 2 partner_left] ∧
  2 ≠ 1.
Proof.
  assert (Hr : reachable (run init paired_trace).1)
    by apply run_reachable, reachable_init.
  destruct (close_notifies_only_partner all_open (run init paired_trace).1 1 2
              partner_left Hr) as (_ & Hne & _ & Hout & _).
  - left. reflexivity.
  - split; [exact Hr|]. split; [exact Hout | exact Hne].
Defined.

(** ** Sequences of frames *)

Lemma handleJoin_takes_slot rs s w c nm :
  state c ≠ STATES.SEARCHING →
  (∀ p, waitingUser s = Some p → stale s p) →
  handleJoin rs s w c nm =
    (Registry (<[w := Client (id c) (or_default nm (JStr "Stranger"))
                             STATES.SEARCHING (partner c)]> (clients s))
              (Some w),
     []).
Proof.
  intros Hst Hstale. unfold handleJoin.
  apply STATES_eqb_neq in Hst. rewrite Hst.
  destruct (waitingUser s) as [p|] eqn:Hslot; [|done].
  destruct (decide (p = w)) as [|Hne]; [done|].
  rewrite lookup_insert_ne by done.
  destruct (clients s !! p) as [pd|] eqn:Hp; [|done].
  destruct (STATES.eqb (state pd) STATES.SEARCHING) eqn:Hpd; [|done].
  apply STATES_eqb_eq in Hpd. by destruct (Hstale p eq_refl pd).
Qed.

(** X10. First come, first paired: when nobody Searching waits (the slot
    is empty or its occupant is stale) and two different registered
    connections [a] and [b], neither of them Searching, send [join] one
    after the other, the first join sends nothing and the second pairs the
    two: [b] is told [initiator: true] with the name [a] gave, [a] is told
    [initiator: false] with the name [b] gave, each if its transport is
    open then; they are Connecting with each other as partner and the slot
    is empty again. *)
Theorem two_joins_pair rs1 rs2 s a b ca cb na nb :
  a ≠ b →
  clients s !! a = Some ca →
  clients s !! b = Some cb →
  state ca ≠ STATES.SEARCHING →
  state cb ≠ STATES.SEARCHING →
  (∀ p, waitingUser s = Some p → stale s p) →
  let name_a := or_default na (JStr "Stranger") in
  let name_b := or_default nb (JStr "Stranger") in
  let r1 := handleJoin rs1 s a ca na in
  let r2 := handleJoin rs2 r1.1 b cb nb in
  r1.2 = [] ∧
  clients r1.1 !! b = Some cb ∧
  r2.2 = sendJSON rs2 b (matched true name_a)
         ++ sendJSON rs2 a (matched false name_b) ∧
  clients r2.1 !! a = Some (Client (id ca) name_a STATES.CONNECTING (Some b)) ∧
  clients r2.1 !! b = Some (Client (id cb) name_b STATES.CONNECTING (Some a)) ∧
  (∀ x, x ≠ a → x ≠ b → clients r2.1 !! x = clients s !! x) ∧
  waitingUser r2.1 = None.
Proof.
  intros Hab Ha Hb Hsa Hsb Hslot name_a name_b r1 r2. subst r1 r2.
  rewrite (handleJoin_takes_slot rs1 s a ca na Hsa Hslot). simpl.
  split; [done|]. split; [by rewrite lookup_insert_ne|].
  unfold handleJoin. apply STATES_eqb_neq in Hsb. rewrite Hsb. simpl.
  destruct (decide (a = b)) as [|_]; [done|].
  rewrite lookup_insert_ne by done. rewrite lookup_insert_eq. simpl.
  split; [done|]. split; [by rewrite lookup_insert_eq|]. split.
  { rewrite lookup_insert_ne by done. by rewrite lookup_insert_eq. }
  split; [|done].
  intros x Hxa Hxb. by rewrite !lookup_insert_ne.
Qed.

Lemma two_joins_pair_witness :
  let s := (run init [ (all_open, EvConnection 1 origin_ok "u1");
                       (all_open, EvConnection 2 origin_ok "u2") ]).1 in
  let c1 := Client "u1" (JStr "Anonymous") STATES.IDLE None in
  let r1 := handleJoin all_open s 1 c1 (Some (JStr "Ann")) in
  let r2 := handleJoin (closed_at 1) r1.1 2 bob_idle None in
  clients s !! 1 = Some c1 ∧ clients s !! 2 = Some bob_idle ∧
  r1.2 = [] ∧
  r2.2 = [Send 2 (matched true (JStr "Ann"))] ∧
  clients r2.1 !! 1 = Some (Client "u1" (JStr "Ann") STATES.CONNECTING (Some 2)) ∧
  clients r2.1 !! 2
  = Some (Client "u2" (JStr "Stranger") STATES.CONNECTING (Some 1)).
Proof.
  intros s c1 r1 r2.
  destruct (two_joins_pair all_open (closed_at 1) s 1 2 c1 bob_idle
              (Some (JStr "Ann")) None)
    as (H1 & _ & H3 & H4 & H5 & _).
  - discriminate.
  - reflexivity.
  - reflexivity.
  - discriminate.
  - discriminate.
  - intros p Hp. discriminate Hp.
  - split; [reflexivity|]. split; [reflexivity|]. split; [exact H1|].
    split; [exact H3|]. split; [exact H4 | exact H5].
Defined.

(** X11. A waiting connection that reports "connected" loses its place:
    the frame sends nothing and only sets the sender's state to Connected,
    but the sender stays in the slot as a stale occupant, so the next join
    of any other registered connection takes the slot over without pairing
    and without a word to the displaced connection, which is left
    Connected with the partner field it had. *)
Theorem connected_waiter_is_displaced rs1 rs2 s w cw x cx nm data ty :
  reachable s →
  waitingUser s = Some w →
  clients s !! w = Some cw →
  x ≠ w →
  clients s !! x = Some cx →
  get_prop data "type" = Normal ty →
  is_string ty "connected" = true →
  let r1 := on_message rs1 s w (Normal data) in
  let r2 := handleJoin rs2 r1.1 x cx nm in
  r1.2 = [] ∧
  waitingUser r1.1 = Some w ∧
  clients r1.1 !! x = Some cx ∧
  r2.2 = [] ∧
  waitingUser r2.1 = Some x ∧
  clients r2.1 !! w = Some (set_state cw STATES.CONNECTED) ∧
  clients r2.1 !! x = Some (Client (id cx) (or_default nm (JStr "Stranger"))
                                   STATES.SEARCHING (partner cx)).
Proof.
  intros Hr Hslot Hw Hne Hx Hty Hconn r1 r2. subst r1 r2.
  destruct (reachable_invariants s Hr) as [_ Hsearch].
  assert (Hcx : state cx ≠ STATES.SEARCHING).
  { intros Hs. pose proof (Hsearch _ _ Hx Hs). congruence. }
  assert (Hm : on_message rs1 s w (Normal data)
               = (Registry (<[w := set_state cw STATES.CONNECTED]> (clients s))
                           (waitingUser s), [])).
  { unfold on_message, message_body; simpl. rewrite Hw, Hty; simpl.
    apply is_string_eq in Hconn. subst ty. reflexivity. }
  rewrite Hm. simpl. split; [done|]. split; [done|].
  split; [by rewrite lookup_insert_ne|].
  rewrite handleJoin_takes_slot; [|done|].
  - simpl. split; [done|]. split; [done|]. split.
    + rewrite lookup_insert_ne by done. by rewrite lookup_insert_eq.
    + by rewrite lookup_insert_eq.
  - intros p Hp pd Hpd. simpl in Hp, Hpd. rewrite Hslot in Hp. simplify_eq.
    rewrite lookup_insert_eq in Hpd. simplify_eq. simpl. discriminate.
Qed.

Lemma connected_waiter_is_displaced_witness :
  let s := (run init waiting_trace).1 in
  let r1 := on_message all_open s 1 connected_frame in
  let r2 := handleJoin all_open r1.1 2 bob_idle (Some (JStr "Bob")) in
  reachable s ∧ waitingUser s = Some 1 ∧
  r1.2 = [] ∧ r2.2 = [] ∧ waitingUser r2.1 = Some 2 ∧
  clients r2.1 !! 1 = Some (Client "u1" (JStr "Ann") STATES.CONNECTED None).
Proof.
  intros s r1 r2.
  assert (Hr : reachable s) by apply run_reachable, reachable_init.
  destruct (connected_waiter_is_displaced all_open all_open s 1 ann 2 bob_idle
              (Some (JStr "Bob")) (JObj [("type", JStr "connected")])
              (Some (JStr "connected")) Hr)
    as (H1 & _ & _ & H4 & H5 & H6 & _);
    [reflexivity | reflexivity | discriminate | reflexivity | reflexivity
     | reflexivity |].
  split; [exact Hr|]. split; [reflexivity|]. split; [exact H1|].
  split; [exact H4|]. split; [exact H5 | exact H6].
Defined.

(** ** Runs in which nobody joins while paired *)

Lemma calm_trace_linked s tr :
  linked s ∧ searching_unpaired s →
  calm_trace s tr →
  linked (run s tr).1 ∧ searching_unpaired (run s tr).1.
Proof.
  revert s. induction tr as [|[rs ev] tr IH]; intros s Hs Hcalm; [done|].
  simpl in *. destruct Hcalm as [Hev Hrest].
  specialize (IH _ (step_linked rs s ev Hev Hs) Hrest).
  destruct (step rs s ev) as [s1 out1]; simpl in *.
  by destruct (run s1 tr).
Qed.

(** X12. As long as every socket connects only once and no connection
    sends [join] while it has a partner, the registry stays consistent
    after every event: each partner reference names a registered
    connection that names the referring one back, so links are reciprocal
    and never dangle, and a Searching connection has no partner. *)
Theorem quiet_runs_keep_links_reciprocal tr :
  calm_trace init tr →
  linked (run init tr).1 ∧
  reciprocal (run init tr).1 ∧
  searching_unpaired (run init tr).1.
Proof.
  intros Hcalm.
  destruct (calm_trace_linked init tr) as [Hl Hu]; [|done|].
  - split; intros w c; simpl; rewrite lookup_empty; discriminate.
  - split; [done|]. split; [by apply linked_reciprocal | done].
Qed.

Lemma quiet_runs_keep_links_reciprocal_witness :
  calm_trace init paired_trace ∧
  linked (run init paired_trace).1 ∧
  reciprocal (run init paired_trace).1.
Proof.
  assert (Hcalm : calm_trace init paired_trace).
  { unfold paired_trace, waiting_trace. simpl.
    split; [reflexivity|]. split; [reflexivity|].
    split; [intros _ c Hc; vm_compute in Hc; by simplify_eq|].
    split; [intros _ c Hc; vm_compute in Hc; by simplify_eq|].
    exact I. }
  destruct (quiet_runs_keep_links_reciprocal paired_trace Hcalm)
    as (H1 & H2 & _).
  split; [exact Hcalm|]. split; [exact H1 | exact H2].
Defined.

(** ** The round trip through JSON.parse and JSON.stringify *)

Section Doubles.

Local Open Scope Z_scope.

Lemma round53_small n : (Z.abs n < 2 ^ 53) → round53 n = n.
Proof.
  intros Hn. unfold round53.
  destruct (Z.leb_spec (Z.log2 (Z.abs n) - 52) 0) as [|Hk]; [done|].
  exfalso.
  assert (0 < Z.abs n).
  { destruct (Z.eq_dec (Z.abs n) 0) as [E|]; [|lia].
    rewrite E in Hk. simpl in Hk. lia. }
  assert (Z.log2 (Z.abs n) < 53) by (apply Z.log2_lt_pow2; lia).
  lia.
Qed.

Lemma round53_large v : (2 ^ 53 <= Z.abs v) → (2 ^ 53 <= Z.abs (round53 v)).
Proof.
  intros Hv. unfold round53.
  set (a := Z.abs v) in *.
  assert (Ha : (0 < a)) by lia.
  pose proof (Z.log2_spec a Ha) as [Hlo Hhi].
  assert (Hlog : (53 <= Z.log2 a)) by (apply Z.log2_le_pow2; lia).
  destruct (Z.leb_spec (Z.log2 a - 52) 0) as [|Hk]; [lia|].
  set (k := (Z.log2 a - 52)) in *.
  assert (Hq : (2 ^ 52 <= a / 2 ^ k)).
  { replace (2 ^ 52) with (2 ^ Z.log2 a / 2 ^ k).
    - apply Z.div_le_mono; lia.
    - replace (Z.log2 a) with (52 + k) by lia.
      rewrite Z.pow_add_r by lia. rewrite Z.div_mul; lia. }
  assert (Hp : (2 <= 2 ^ k)).
  { change 2 with (2 ^ 1) at 1. apply Z.pow_le_mono_r; lia. }
  match goal with
  | |- context [Z.sgn v * (?q * _)] =>
      set (q' := q); assert (Hq' : 2 ^ 52 <= q') by (unfold q'; case_match; lia)
  end.
  assert (Hs : Z.sgn v = 1 ∨ Z.sgn v = -1) by (unfold a in Ha; lia).
  destruct Hs as [-> | ->]; nia.
Qed.

Lemma round53_exact v x :
  (Z.abs x < 2 ^ 53) → round53 v = x → v = x.
Proof.
  intros Hx Hv.
  destruct (Z.lt_ge_cases (Z.abs v) (2 ^ 53)) as [Hs|Hl].
  - by rewrite round53_small in Hv.
  - apply round53_large in Hl. rewrite Hv in Hl. lia.
Qed.

Lemma shortest_from_reads j x :
  shortest_from j x = x ∨ round53 (shortest_from j x) = x.
Proof.
  induction j as [|j IH]; cbn [shortest_from];
    repeat match goal with
           | |- context [round53 ?v =? x] =>
               destruct (Z.eqb_spec (round53 v) x)
           end;
    repeat case_match; simplify_eq; auto.
Qed.

Lemma shortest_from_small j x :
  (Z.abs x < 2 ^ 53) → shortest_from j x = x.
Proof.
  intros Hx. destruct (shortest_from_reads j x) as [H|H]; [done|].
  by apply round53_exact.
Qed.

Lemma shortest_nonzero z : z ≠ 0 → shortest z ≠ 0.
Proof.
  intros Hz. destruct z as [|p|p]; unfold shortest; [done| |].
  - destruct (shortest_from_reads (S (Z.to_nat (Z.log2 (Z.pos p)))) (Z.pos p))
      as [H|H]; [by rewrite H|].
    intros E. rewrite E in H. discriminate H.
  - destruct (shortest_from_reads (S (Z.to_nat (Z.log2 (- Z.neg p))))
                (- Z.neg p)) as [H|H]; [rewrite H; lia|].
    intros E. assert (E' : shortest_from (S (Z.to_nat (Z.log2 (- Z.neg p))))
                             (- Z.neg p) = 0) by lia.
    rewrite E' in H. discriminate H.
Qed.

Lemma shortest_small z : (Z.abs z < 2 ^ 53) → shortest z = z.
Proof.
  intros Hz. destruct z as [|p|p]; unfold shortest; [done| |].
  - by apply shortest_from_small.
  - rewrite shortest_from_small; lia.
Qed.

Lemma to_number_small n : (Z.abs n < 2 ^ 53) → to_number n = Finite n.
Proof.
  intros Hn. unfold to_number. rewrite round53_small by done.
  destruct (Z.leb_spec (2 ^ 1024) (Z.abs n)) as [Hbig|]; [|done].
  assert (2 ^ 53 < 2 ^ 1024) by (apply Z.pow_lt_mono_r; lia). lia.
Qed.

End Doubles.

Lemma doc_nested_ind (P : doc → Prop) :
  P DNull →
  (∀ b, P (DBool b)) →
  (∀ n, P (DNum n)) →
  (∀ s, P (DStr s)) →
  (∀ l, Forall P l → P (DArr l)) →
  (∀ members, Forall (λ m, P m.2) members → P (DObj members)) →
  ∀ d, P d.
Proof.
  intros Hnull Hbool Hnum Hstr Harr Hobj. fix IH 1.
  intros [| b | n | s | l | members];
    [exact Hnull | apply Hbool | apply Hnum | apply Hstr | | ].
  - apply Harr. revert l. fix IHl 1.
    intros [|d l]; constructor; [apply IH | apply IHl].
  - apply Hobj. revert members. fix IHm 1.
    intros [|[k d] members]; constructor; [apply IH | apply IHm].
Qed.

Lemma has_key_app k fields1 fields2 :
  has_key k (fields1 ++ fields2) = has_key k fields1 || has_key k fields2.
Proof. unfold has_key. apply existsb_app. Qed.

Lemma fold_define_append (members acc : list (string * json)) :
  distinct (map fst members) = true →
  forallb (λ m, match array_index m.1 with
                | None => true
                | Some _ => false
                end) members = true →
  forallb (λ m, negb (has_key m.1 acc)) members = true →
  fold_left (λ fields m, obj_define m.1 m.2 fields) members acc
  = acc ++ members.
Proof.
  revert acc. induction members as [|[k v] members IH]; intros acc Hd Hi Hk.
  - by rewrite app_nil_r.
  - simpl in *.
    apply andb_prop in Hd as [Hk1 Hd].
    apply andb_prop in Hi as [Hi1 Hi].
    apply andb_prop in Hk as [Hk2 Hk].
    apply negb_true_iff in Hk1, Hk2.
    unfold obj_define at 2. rewrite Hk2.
    destruct (array_index k); [discriminate|].
    rewrite IH; [by rewrite <- app_assoc | done | done |].
    apply forallb_forall. intros [k' v'] Hin. simpl.
    rewrite has_key_app.
    rewrite forallb_forall in Hk. specialize (Hk _ Hin). simpl in Hk.
    apply negb_true_iff in Hk. rewrite Hk. simpl.
    rewrite orb_false_r. apply negb_true_iff.
    rewrite String.eqb_sym.
    destruct (String.eqb k k') eqn:E; [|done].
    exfalso.
    assert (Ht : existsb (String.eqb k) (map fst members) = true).
    { apply existsb_exists. exists k'. split; [|done].
      apply in_map_iff. by exists (k', v'). }
    congruence.
Qed.

(** [JSON.stringify(JSON.parse(text))] spells the document of [text]
    again when the document is plain. *)
Lemma plain_round_trip d :
  plain d = true → JSON_stringify (parse_doc d) = d.
Proof.
  induction d as [| b | n | s | l IH | members IH] using doc_nested_ind;
    intros Hp; try reflexivity.
  - simpl in *. apply Z.ltb_lt in Hp.
    rewrite to_number_small by done. simpl. by rewrite shortest_small.
  - simpl in *. f_equal. rewrite map_map.
    induction IH as [|d l Hd _ IHl]; [done|].
    simpl in Hp. apply andb_prop in Hp as [Hp1 Hp2].
    simpl. rewrite Hd by done. by rewrite IHl.
  - simpl in Hp.
    apply andb_prop in Hp as [Hp Hv]. apply andb_prop in Hp as [Hd Hi].
    cbn [parse_doc].
    rewrite fold_define_append.
    + simpl. f_equal. rewrite map_map. simpl.
      induction IH as [|[k d] members Hd' _ IHm]; [done|].
      simpl in *.
      apply andb_prop in Hv as [Hv1 Hv2].
      apply andb_prop in Hd as [_ Hd]. apply andb_prop in Hi as [_ Hi].
      rewrite Hd' by done. by rewrite IHm.
    + by rewrite map_map.
    + rewrite forallb_forall in Hi. apply forallb_forall.
      intros [k v] Hin. apply in_map_iff in Hin as ([k' d'] & E & Hin).
      simpl in E. inversion E; subst. apply (Hi _ Hin).
    + apply forallb_forall. by intros [k v] _.
Qed.

Lemma wire_in x text out :
  In (x, text) (wire out) →
  ∃ payload, In (Send x payload) out ∧ text = JSON_stringify payload.
Proof.
  unfold wire. rewrite in_flat_map. intros ([y payload|y code reason] & Hin & Hx).
  - destruct Hx as [Hx|[]]. inversion Hx; subst. by exists payload.
  - destruct Hx.
Qed.

(** ** The relay of signal frames, on the wire *)

(** C5 does not hold as stated: the relay does not pass the frame on as it
    came, it sends [JSON.stringify] of what [JSON.parse] made of it.  A
    signal frame that carries the numeral 9007199254740993 reaches the
    partner with 9007199254740992 in its place, and one that carries a
    numeral beyond the double range reaches it with [null]. *)
Lemma relayed_signal_is_reserialised :
  let s := (run init paired_trace).1 in
  wire (message_listener all_open s 1
          (Document (candidate_doc 9007199254740993))).2
  = [(2, candidate_doc 9007199254740992)] ∧
  wire (message_listener all_open s 1
          (Document (candidate_doc 9007199254740993))).2
  ≠ [(2, candidate_doc 9007199254740993)] ∧
  wire (message_listener all_open s 1 (Document (candidate_doc (10 ^ 400)))).2
  = [(2, DObj [ ("type", DStr "signal");
                ("signal",
                 DObj [ ("type", DStr "candidate");
                        ("candidate",
                         DStr "candidate:1 1 udp 1 10.0.0.1 9 typ host");
                        ("sdpMLineIndex", DNull) ]) ])].
Proof.
  cbv zeta. split; [vm_compute; reflexivity|]. split.
  - intros H. vm_compute in H. discriminate H.
  - vm_compute. reflexivity.
Qed.

(** C5, amended. For a signal frame from a registered connection, the
    registry is never changed and nothing but the outer type tag decides
    what happens.  If the sender has a partner whose transport is open,
    the partner is sent exactly one message: the parsed frame written out
    again by [JSON.stringify].  That is the document that was received
    whenever the document is plain (integers below 2^53 in magnitude, the
    keys of each object pairwise different and no array indices).  If
    there is no partner, or its transport is not open, nothing is sent. *)
Theorem signal_reserialised_or_dropped rs s w c d ty :
  clients s !! w = Some c →
  get_prop (parse_doc d) "type" = Normal ty →
  is_string ty "signal" = true →
  let r := message_listener rs s w (Document d) in
  r.1 = s ∧
  (∀ p, partner c = Some p → rs p = WebSocket.OPEN →
        r.2 = [Send p (parse_doc d)] ∧
        wire r.2 = [(p, JSON_stringify (parse_doc d))] ∧
        (plain d = true → wire r.2 = [(p, d)])) ∧
  (∀ p, partner c = Some p → rs p ≠ WebSocket.OPEN → r.2 = []) ∧
  (partner c = None → r.2 = []).
Proof.
  intros Hw Hty Hsig r. subst r. unfold message_listener. simpl JSON_parse.
  destruct (signal_dispatch rs s w c (parse_doc d) ty Hw Hty Hsig)
    as (H1 & H2 & H3 & H4).
  split; [done|]. split; [|split; [done|done]].
  intros p Hp Hopen. rewrite (H2 p Hp Hopen).
  split; [done|]. split; [done|].
  intros Hplain. simpl. by rewrite plain_round_trip.
Qed.

Lemma signal_reserialised_or_dropped_witness :
  let s := (run init paired_trace).1 in
  clients s !! 1 = Some ann_paired ∧
  plain (candidate_doc 0) = true ∧
  wire (message_listener all_open s 1 (Document (candidate_doc 0))).2
  = [(2, candidate_doc 0)] ∧
  message_listener (closed_at 2) s 1 (Document (candidate_doc 0)) = (s, []).
Proof.
  cbv zeta.
  destruct (signal_reserialised_or_dropped all_open (run init paired_trace).1 1
              ann_paired (candidate_doc 0) (Some (JStr "signal")))
    as (_ & H2 & _); [reflexivity..|].
  destruct (signal_reserialised_or_dropped (closed_at 2)
              (run init paired_trace).1 1
              ann_paired (candidate_doc 0) (Some (JStr "signal")))
    as (H3 & _ & H4 & _); [reflexivity..|].
  split; [reflexivity|]. split; [reflexivity|]. split.
  - destruct (H2 2) as (_ & _ & H); [reflexivity..|]. by apply H.
  - apply injective_projections; simpl; [exact H3|].
    apply (H4 2); [reflexivity | discriminate].
Defined.

(** ** Rejoin while paired, both cases *)

(** C9, amended. A join from a connection [w] that is Connecting or
    Connected with partner [p] is accepted.  Unless [p] is itself the
    Searching occupant of the slot, the record of [p] is left as it was
    (it still names [w] as partner if it did) and nothing is sent to [p],
    while [w] either takes the slot as Searching, keeping its old partner
    reference, or is paired with the Searching occupant of the slot.  If
    [p] is the Searching occupant of the slot, the two are paired again:
    both become Connecting with each other as partner, the slot is
    emptied, and [p] is sent a [matched] message with [initiator: false]
    if its transport is open and nothing if it is not. *)
Theorem rejoin_leaves_former_partner rs s w c nm p :
  clients s !! w = Some c →
  state c = STATES.CONNECTING ∨ state c = STATES.CONNECTED →
  partner c = Some p →
  p ≠ w →
  let mine := or_default nm (JStr "Stranger") in
  let r := handleJoin rs s w c nm in
  (¬ (waitingUser s = Some p ∧
      ∃ pd, clients s !! p = Some pd ∧ state pd = STATES.SEARCHING) →
   clients r.1 !! p = clients s !! p ∧
   (∀ payload, ¬ In (Send p payload) r.2) ∧
   ((waitingUser r.1 = Some w ∧ r.2 = [] ∧
     clients r.1 !! w = Some (Client (id c) mine STATES.SEARCHING (Some p)))
    ∨
    (∃ q qd, waitingUser s = Some q ∧ q ≠ w ∧ q ≠ p ∧
             clients s !! q = Some qd ∧ state qd = STATES.SEARCHING ∧
             waitingUser r.1 = None ∧
             clients r.1 !! w
             = Some (Client (id c) mine STATES.CONNECTING (Some q)) ∧
             clients r.1 !! q
             = Some (Client (id qd) (name qd) STATES.CONNECTING (Some w)))))
  ∧
  (∀ pd, waitingUser s = Some p →
         clients s !! p = Some pd →
         state pd = STATES.SEARCHING →
     r.2 = (if WebSocket.is_open (rs w)
            then [Send w (matched true (name pd))] else [])
           ++ (if WebSocket.is_open (rs p)
               then [Send p (matched false mine)] else []) ∧
     clients r.1 !! w = Some (Client (id c) mine STATES.CONNECTING (Some p)) ∧
     clients r.1 !! p
     = Some (Client (id pd) (name pd) STATES.CONNECTING (Some w)) ∧
     waitingUser r.1 = None).
Proof.
  intros Hw Hst Hp Hne mine r. split.
  - intros Hnot.
    exact (rejoin_other_partner_untouched rs s w c nm p Hw Hst Hp Hne Hnot).
  - intros pd Hslot Hpd Hsearch. subst r mine. unfold handleJoin.
    assert (Hs : STATES.eqb (state c) STATES.SEARCHING = false).
    { apply STATES_eqb_neq. destruct Hst as [-> | ->]; discriminate. }
    rewrite Hs, Hslot.
    destruct (decide (p = w)) as [|_]; [done|].
    rewrite lookup_insert_ne by done. rewrite Hpd, Hsearch. simpl.
    split; [done|]. split; [|split; [|done]].
    + rewrite lookup_insert_ne by done. by rewrite lookup_insert_eq.
    + by rewrite lookup_insert_eq.
Qed.

Lemma rejoin_leaves_former_partner_witness :
  let s := (run init paired_trace).1 in
  let r := handleJoin all_open s 1 ann_paired (Some (JStr "Ann")) in
  let s' := (run init partner_waits_trace).1 in
  let r' := handleJoin (closed_at 2) s' 1 ann_paired (Some (JStr "Ann")) in
  clients s !! 1 = Some ann_paired ∧
  clients r.1 !! 2 = Some bob_paired ∧
  (∀ payload, ¬ In (Send 2 payload) r.2) ∧
  clients s' !! 1 = Some ann_paired ∧
  clients s' !! 2 = Some (Client "u2" (JStr "Bob") STATES.SEARCHING (Some 1)) ∧
  r'.2 = [Send 1 (matched true (JStr "Bob"))] ∧
  clients r'.1 !! 2 = Some bob_paired.
Proof.
  cbv zeta.
  destruct (rejoin_leaves_former_partner all_open (run init paired_trace).1
              1 ann_paired (Some (JStr "Ann")) 2) as (HA & _);
    [reflexivity | by left | reflexivity | discriminate |].
  destruct HA as (H1 & H2 & _).
  { intros [H _]. vm_compute in H. discriminate H. }
  destruct (rejoin_leaves_former_partner (closed_at 2)
              (run init partner_waits_trace).1
              1 ann_paired (Some (JStr "Ann")) 2) as (_ & HB);
    [reflexivity | by left | reflexivity | discriminate |].
  destruct (HB (Client "u2" (JStr "Bob") STATES.SEARCHING (Some 1)))
    as (H3 & _ & H5 & _); [reflexivity..|].
  split; [reflexivity|].
  split; [etransitivity; [exact H1|reflexivity]|].
  split; [exact H2|]. split; [reflexivity|]. split; [reflexivity|].
  split; [exact H3 | exact H5].
Defined.

(** ** Display names, as stored and as written *)

Lemma truthy_stringify v :
  truthy v = true →
  JSON_stringify v ≠ DBool false ∧
  JSON_stringify v ≠ DNum 0 ∧
  JSON_stringify v ≠ DStr "" ∧
  (JSON_stringify v = DNull ↔ ∃ neg, v = JNum (Infinite neg)).
Proof.
  destruct v as [| b | [z|neg] | t | l | fields]; simpl; intros Ht;
    try discriminate.
  - subst b. repeat split; try discriminate. intros [neg H]. discriminate H.
  - apply negb_true_iff, Z.eqb_neq in Ht.
    repeat split; try discriminate.
    + intros H. inversion H as [H0]. by apply shortest_nonzero in H0.
    + intros [neg H]. discriminate H.
  - repeat split; try discriminate. intros _. by exists neg.
  - apply negb_true_iff, String.eqb_neq in Ht.
    repeat split; try discriminate.
    + intros H. inversion H. done.
    + intros [neg H]. discriminate H.
  - repeat split; try discriminate. intros [neg H]. discriminate H.
  - repeat split; try discriminate. intros [neg H]. discriminate H.
Qed.

(** X3. In every reachable registry each recorded display name is a truthy
    JavaScript value: a connection starts as "Anonymous", a join stores
    the given name or "Stranger" in place of a falsy one, and nothing else
    writes the name.  The [partnerName] that [handleJoin] puts into a
    [matched] message is therefore truthy, and what [JSON.stringify]
    writes for it is never [false], [0] or the empty string; it is [null]
    exactly when the name is a number that is not finite. *)
Theorem display_names_are_truthy s :
  reachable s →
  names_truthy s ∧
  (∀ rs w c nm x b partnerName,
     clients s !! w = Some c →
     In (Send x (matched b partnerName)) (handleJoin rs s w c nm).2 →
     truthy partnerName = true ∧
     JSON_stringify partnerName ≠ DBool false ∧
     JSON_stringify partnerName ≠ DNum 0 ∧
     JSON_stringify partnerName ≠ DStr "" ∧
     (JSON_stringify partnerName = DNull ↔
      ∃ neg, partnerName = JNum (Infinite neg))).
Proof.
  intros Hr.
  assert (Hn : names_truthy s).
  { induction Hr as [|s rs ev _ IH].
    - intros w c Hw. simpl in Hw. by rewrite lookup_empty in Hw.
    - by apply step_names_truthy. }
  split; [done|].
  intros rs w c nm x b partnerName Hw Hin.
  assert (Ht : truthy partnerName = true).
  { revert Hin. unfold handleJoin.
    destruct (STATES.eqb (state c) STATES.SEARCHING); [by intros []|].
    destruct (waitingUser s) as [p|]; [|by intros []].
    destruct (decide (p = w)) as [|Hne]; [by intros []|].
    rewrite lookup_insert_ne by done.
    destruct (clients s !! p) as [pd|] eqn:Hp; [|by intros []].
    destruct (STATES.eqb (state pd) STATES.SEARCHING); [|by intros []].
    simpl. intros Hin. apply in_app_or in Hin as [Hin|Hin];
      apply sendJSON_in in Hin as (_ & Heq & _); inversion Heq; subst.
    - by apply (Hn p pd).
    - apply truthy_or_default. }
  split; [done|]. by apply truthy_stringify.
Qed.

Lemma display_names_are_truthy_witness :
  let s := (run init huge_name_trace).1 in
  let r := handleJoin all_open s 2 bob_idle (Some (JStr "")) in
  reachable s ∧
  clients s !! 1
  = Some (Client "u1" (JNum (Infinite false)) STATES.SEARCHING None) ∧
  r.2 = [ Send 2 (matched true (JNum (Infinite false)));
          Send 1 (matched false (JStr "Stranger")) ] ∧
  truthy (JNum (Infinite false)) = true ∧
  JSON_stringify (JNum (Infinite false)) = DNull ∧
  JSON_stringify (JStr "Stranger") ≠ DNull.
Proof.
  cbv zeta.
  assert (Hr : reachable (run init huge_name_trace).1)
    by apply run_reachable, reachable_init.
  destruct (display_names_are_truthy _ Hr) as [_ H].
  destruct (H all_open 2 bob_idle (Some (JStr "")) 2 true
              (JNum (Infinite false))) as (H1 & _ & _ & _ & H5);
    [vm_compute; reflexivity | vm_compute; by left |].
  destruct (H all_open 2 bob_idle (Some (JStr "")) 1 false
              (JStr "Stranger")) as (_ & _ & _ & _ & H6);
    [vm_compute; reflexivity | vm_compute; right; by left |].
  split; [exact Hr|]. split; [vm_compute; reflexivity|].
  split; [vm_compute; reflexivity|]. split; [exact H1|]. split.
  - apply H5. by exists false.
  - intros E. apply H6 in E as [neg E]. discriminate E.
Defined.

(** ** Who is sent what, on the wire *)

(** X8. Whatever frame a socket delivers, each document the relay writes
    in response is one of three: the [error] reply, to the sender itself;
    the frame parsed and written out again ([JSON.stringify] of the parsed
    frame), to the partner recorded for the sender, whose transport is
    open; or a [matched] notification over an open transport, with
    [initiator: true] to the sender or with [initiator: false] to the
    other connection that was waiting in the slot.  No other socket is
    written to. *)
Theorem frame_recipients rs s w f x text :
  In (x, text) (wire (message_listener rs s w f).2) →
  (x = w ∧ text = JSON_stringify invalid_payload)
  ∨ (∃ c d, clients s !! w = Some c ∧ partner c = Some x ∧
            f = Document d ∧ text = JSON_stringify (parse_doc d) ∧
            rs x = WebSocket.OPEN)
  ∨ (∃ initiator partnerName,
       text = JSON_stringify (matched initiator partnerName) ∧
       rs x = WebSocket.OPEN ∧
       ((x = w ∧ initiator = true) ∨
        (waitingUser s = Some x ∧ x ≠ w ∧ initiator = false))).
Proof.
  intros Hin. apply wire_in in Hin as (payload & Hin & ->).
  unfold message_listener in Hin.
  apply on_message_recipients in Hin as [[-> ->] | [H | H]].
  - by left.
  - right. left. destruct H as (c & Hw & Hp & Hm & Hopen).
    destruct f as [|d]; simpl in Hm; [discriminate|].
    inversion Hm; subst. by exists c, d.
  - right. right. destruct H as (i & pn & -> & Hopen & Hcase).
    by exists i, pn.
Qed.

Lemma frame_recipients_witness :
  let s := (run init paired_trace).1 in
  In (2, candidate_doc 9007199254740992)
     (wire (message_listener all_open s 1
              (Document (candidate_doc 9007199254740993))).2) ∧
  ∃ c d, clients s !! 1 = Some c ∧ partner c = Some 2 ∧
         Document (candidate_doc 9007199254740993) = Document d ∧
         candidate_doc 9007199254740992 = JSON_stringify (parse_doc d) ∧
         all_open 2 = WebSocket.OPEN.
Proof.
  cbv zeta.
  assert (Hin : In (2, candidate_doc 9007199254740992)
                  (wire (message_listener all_open (run init paired_trace).1 1
                           (Document (candidate_doc 9007199254740993))).2))
    by (vm_compute; by left).
  split; [exact Hin|].
  destruct (frame_recipients all_open (run init paired_trace).1 1
              (Document (candidate_doc 9007199254740993)) 2
              (candidate_doc 9007199254740992) Hin) as [[H _] | [H | H]].
  - discriminate H.
  - exact H.
  - destruct H as (i & pn & H & _).
    unfold candidate_doc, matched in H. cbn [JSON_stringify map fst snd] in H.
    discriminate H.
Defined.
